(** * Change-notification layer of antigravity-agent

    A shallow embedding of the TypeScript sources that subscribe the UI to the
    backend's 'database-changed' channel:

    - [src/stores/databaseStore] (the zustand store holding [isListening],
      [isAutoRefreshEnabled] and [unlistenFn]) and the hooks of
      [src/hooks/useDatabaseListener.ts];
    - the merged monitoring store ([dbMonitoringEnabled], the module-level
      [globalUnlistenFn] and the module-level event emitter);
    - the monitoring switch of the business settings dialog;
    - [SimpleEncryption.validatePassword] of [src/utils/encryption.ts].

    Asynchronous functions are terms of a free monad [Async]: every [await]
    of the source is a suspension point of the term, and the single-threaded
    event loop is a pool of suspended tasks resumed one at a time. *)

From stdpp Require Import base option list sets strings.

Set Default Proof Using "Type".

(** ** JavaScript values the sources use *)

(** A thrown value; the sources only ever print it. *)
Definition JsError := string.

(** The id Tauri's [listen] resolves with.  The [UnlistenFn] the sources
    store is the closure [() => _unlisten(event, eventId)], so a stored
    [UnlistenFn | null] is an [option EventId]. *)
Definition EventId := nat.

Inductive Level := LOG | WARN | ERROR.

Record LogLine := Line { level : Level; text : string }.

(** ** The backend, as the frontend sees it *)

Inductive Command :=
| is_db_monitoring_enabled
| set_db_monitoring_enabled (enabled : bool)
| save_db_monitoring_state (enabled : bool)
| start_database_monitoring.

Inductive Request :=
| listen (event : string)
| unlisten (event : string) (id : EventId)
| invoke (cmd : Command).

(** What a successful command resolves with ([invoke<boolean>],
    [invoke<string>], or a value nobody reads). *)
Definition Result (cmd : Command) : Type :=
  match cmd with
  | is_db_monitoring_enabled => bool
  | save_db_monitoring_state _ => string
  | set_db_monitoring_enabled _ | start_database_monitoring => unit
  end.

Definition Reply (r : Request) : Type :=
  match r with
  | listen _ => EventId
  | unlisten _ _ => unit
  | invoke cmd => Result cmd
  end.

(** Modelled from the spec: the Tauri backend (the Rust commands and the event
    plugin behind [listen]) is not among the sources.  Following the spec's
    backend contract, it keeps the durable monitoring flag, arms the watcher
    on request, and holds the live registrations of the push channel; every
    request is journalled together with whether it succeeded. *)
Record Backend := {
  registered : list EventId;
  next_event_id : EventId;
  persisted_flag : bool;
  watcher_armed : bool;
  journal : list (Request * bool)
}.

(** The environment decides, request by request, whether the backend rejects
    ([refuses n r] is the verdict on request [r] when [n] requests were served
    before it), and what text [save_db_monitoring_state] answers with. *)
Record Env := {
  refuses : nat -> Request -> option JsError;
  ack : bool -> string
}.

Definition journalled (r : Request) (ok : bool) (b : Backend) : Backend :=
  {| registered := registered b; next_event_id := next_event_id b;
     persisted_flag := persisted_flag b; watcher_armed := watcher_armed b;
     journal := journal b ++ [(r, ok)] |}.

Definition run_command (env : Env) (cmd : Command) (b : Backend) : Result cmd * Backend :=
  match cmd with
  | is_db_monitoring_enabled => (persisted_flag b, b)
  | set_db_monitoring_enabled enabled =>
      (tt, {| registered := registered b; next_event_id := next_event_id b;
              persisted_flag := enabled; watcher_armed := watcher_armed b;
              journal := journal b |})
  | save_db_monitoring_state enabled =>
      (ack env enabled,
       {| registered := registered b; next_event_id := next_event_id b;
          persisted_flag := enabled; watcher_armed := watcher_armed b;
          journal := journal b |})
  | start_database_monitoring =>
      (tt, {| registered := registered b; next_event_id := next_event_id b;
              persisted_flag := persisted_flag b; watcher_armed := true;
              journal := journal b |})
  end.

Definition accept (env : Env) (r : Request) (b : Backend) : Reply r * Backend :=
  match r with
  | listen _ =>
      (next_event_id b,
       {| registered := registered b ++ [next_event_id b];
          next_event_id := S (next_event_id b);
          persisted_flag := persisted_flag b; watcher_armed := watcher_armed b;
          journal := journal b |})
  | unlisten _ id =>
      (tt, {| registered := filter (fun i => i ≠ id) (registered b);
              next_event_id := next_event_id b;
              persisted_flag := persisted_flag b; watcher_armed := watcher_armed b;
              journal := journal b |})
  | invoke cmd => run_command env cmd b
  end.

Definition serve (env : Env) (r : Request) (b : Backend) : (JsError + Reply r) * Backend :=
  match refuses env (length (journal b)) r with
  | Some e => (inl e, journalled r false b)
  | None => let '(v, b') := accept env r b in (inr v, journalled r true b')
  end.

(** ** Asynchronous functions *)

Section Async.
Context {S : Type}.

(** A store [S] (zustand state, React state or module-level variables), the
    backend and the console. *)
Record World := {
  store : S;
  backend : Backend;
  console : list LogLine
}.

(** The body of an async function.  [Ipc] is an awaited (or fired) request
    to the backend, [Tick] the suspension of an [await] on a promise that
    settles without the backend, [Fork] the call of an async function whose
    promise is not awaited. *)
Inductive Async (A : Type) : Type :=
| Ret (a : A)
| Throw (e : JsError)
| Get (k : S -> Async A)
| Modify (f : S -> S) (k : Async A)
| Console (l : LogLine) (k : Async A)
| Ipc (r : Request) (k : JsError + Reply r -> Async A)
| Tick (k : Async A)
| Fork (child : Async unit) (k : Async A).

Global Arguments Ret {A} a.
Global Arguments Throw {A} e.
Global Arguments Get {A} k.
Global Arguments Modify {A} f k.
Global Arguments Console {A} l k.
Global Arguments Ipc {A} r k.
Global Arguments Tick {A} k.
Global Arguments Fork {A} child k.

Fixpoint bind {A B : Type} (t : Async A) (f : A -> Async B) : Async B :=
  match t with
  | Ret a => f a
  | Throw e => Throw e
  | Get k => Get (fun s => bind (k s) f)
  | Modify g k => Modify g (bind k f)
  | Console l k => Console l (bind k f)
  | Ipc r k => Ipc r (fun v => bind (k v) f)
  | Tick k => Tick (bind k f)
  | Fork c k => Fork c (bind k f)
  end.

(** [try { t } catch (e) { h e }] *)
Fixpoint try_catch {A : Type} (t : Async A) (h : JsError -> Async A) : Async A :=
  match t with
  | Ret a => Ret a
  | Throw e => h e
  | Get k => Get (fun s => try_catch (k s) h)
  | Modify g k => Modify g (try_catch k h)
  | Console l k => Console l (try_catch k h)
  | Ipc r k => Ipc r (fun v => try_catch (k v) h)
  | Tick k => Tick (try_catch k h)
  | Fork c k => Fork c (try_catch k h)
  end.

(** [try { t } finally { fin }] *)
Definition try_finally {A : Type} (t : Async A) (fin : Async unit) : Async A :=
  bind (try_catch (bind t (fun a => Ret (inr a))) (fun e => Ret (inl e)))
       (fun r : JsError + A =>
          bind fin (fun _ => match r with inl e => Throw e | inr a => Ret a end)).

(** [await f()] for an async function [f] of the sources: the body runs,
    and the caller resumes one turn of the event loop after it settles. *)
Definition await {A : Type} (call : Async A) : Async A :=
  try_catch (bind call (fun a => Tick (Ret a))) (fun e => Tick (Throw e)).

(** [await] on a request to the backend; a rejection is thrown. *)
Definition request (r : Request) : Async (Reply r) :=
  Ipc r (fun v => match v with inl e => Throw e | inr a => Ret a end).

(** [f()] for an async function [f] whose promise nobody awaits. *)
Definition spawn (call : Async unit) : Async unit := Fork call (Ret tt).

(** A request whose promise is dropped: [invoke(...)] without [await]. *)
Definition fire (r : Request) : Async unit :=
  spawn (bind (request r) (fun _ => Ret tt)).

(** [setTimeout(f, ms)]: [f] runs in a later turn of the event loop. *)
Definition setTimeout (f : Async unit) : Async unit := spawn (Tick f).

Definition get : Async S := Get (fun s => Ret s).
Definition set (f : S -> S) : Async unit := Modify f (Ret tt).
Definition console_log (m : string) : Async unit := Console (Line LOG m) (Ret tt).
Definition console_warn (m : string) : Async unit := Console (Line WARN m) (Ret tt).
Definition console_error (m : string) : Async unit := Console (Line ERROR m) (Ret tt).

(** *** One task, run on its own *)

Definition with_store (s : S) (w : World) : World :=
  {| store := s; backend := backend w; console := console w |}.
Definition with_backend (b : Backend) (w : World) : World :=
  {| store := store w; backend := b; console := console w |}.
Definition printed (l : LogLine) (w : World) : World :=
  {| store := store w; backend := backend w; console := console w ++ [l] |}.

Definition settled {A : Type} (t : Async A) : bool :=
  match t with Ret _ | Throw _ => true | _ => false end.

Definition unsettled (t : Async unit) : list (Async unit) :=
  if settled t then [] else [t].

(** The synchronous stretch of a task, up to its next suspension point.
    A forked child runs its own synchronous stretch at the call, as a
    called async function does; what is left of it joins the pool. *)
Fixpoint advance {A : Type} (t : Async A) (w : World) : Async A * World * list (Async unit) :=
  match t with
  | Ret _ | Throw _ | Ipc _ _ | Tick _ => (t, w, [])
  | Get k => advance (k (store w)) w
  | Modify f k => advance k (with_store (f (store w)) w)
  | Console l k => advance k (printed l w)
  | Fork c k =>
      let '(c', w1, sp1) := advance c w in
      let '(k', w2, sp2) := advance k w1 in
      (k', w2, sp1 ++ unsettled c' ++ sp2)
  end.

(** A suspended task resumes: the backend answers its request, or the turn
    of the event loop it waited for has come. *)
Definition resume {A : Type} (env : Env) (t : Async A) (w : World)
  : Async A * World * list (Async unit) :=
  match t with
  | Ipc r k =>
      let '(v, b) := serve env r (backend w) in advance (k v) (with_backend b w)
  | Tick k => advance k w
  | _ => (t, w, [])
  end.

(** A task run to its end with nothing else scheduled in between: the
    value it resolves with ([inr]) or the error it rejects with ([inl]), the
    world it leaves, and the forked tasks still pending. *)
Fixpoint run {A : Type} (env : Env) (t : Async A) (w : World)
  : (JsError + A) * World * list (Async unit) :=
  match t with
  | Ret a => (inr a, w, [])
  | Throw e => (inl e, w, [])
  | Get k => run env (k (store w)) w
  | Modify f k => run env k (with_store (f (store w)) w)
  | Console l k => run env k (printed l w)
  | Ipc r k =>
      let '(v, b) := serve env r (backend w) in run env (k v) (with_backend b w)
  | Tick k => run env k w
  | Fork c k =>
      let '(c', w1, sp1) := advance c w in
      let '(res, w2, sp2) := run env k w1 in
      (res, w2, sp1 ++ unsettled c' ++ sp2)
  end.

Definition outcome {A : Type} (r : (JsError + A) * World * list (Async unit)) : JsError + A := r.1.1.
Definition after {A : Type} (r : (JsError + A) * World * list (Async unit)) : World := r.1.2.
Definition pending {A : Type} (r : (JsError + A) * World * list (Async unit)) : list (Async unit) := r.2.

(** *** The event loop *)

Record Loop := {
  world : World;
  pool : list (Async unit)
}.

(** What happens next: a caller starts a task, or the task at an index of
    the pool is resumed.  Settled tasks stay in the pool, so a task keeps
    its index. *)
Inductive Turn :=
| Start (t : Async unit)
| Resume (i : nat).

Definition turn (env : Env) (x : Turn) (l : Loop) : Loop :=
  match x with
  | Start t =>
      let '(t', w, sp) := advance t (world l) in
      {| world := w; pool := pool l ++ [t'] ++ sp |}
  | Resume i =>
      match pool l !! i with
      | Some t =>
          let '(t', w, sp) := resume env t (world l) in
          {| world := w; pool := <[i := t']> (pool l) ++ sp |}
      | None => l
      end
  end.

Definition turns (env : Env) (xs : list Turn) (l : Loop) : Loop :=
  foldl (fun l x => turn env x l) l xs.

Definition quiescent (l : Loop) : bool := forallb settled (pool l).

(** Calls are made one after the other when every [Start] finds the pool
    quiescent. *)
Fixpoint one_at_a_time (env : Env) (xs : list Turn) (l : Loop) : Prop :=
  match xs with
  | [] => True
  | x :: xs' =>
      (match x with Start _ => quiescent l = true | Resume _ => True end)
      /\ one_at_a_time env xs' (turn env x l)
  end.
End Async.

Global Arguments World : clear implicits.
Global Arguments Async : clear implicits.
Global Arguments Loop : clear implicits.
Global Arguments Turn : clear implicits.

Global Instance async_ret {S} : MRet (Async S) := fun A a => Ret a.
Global Instance async_bind {S} : MBind (Async S) := fun A B f t => bind t f.

(** ** [databaseStore]: the zustand store of the listener *)

Module DatabaseStore.

Record DatabaseListenerState := {
  isListening : bool;
  isAutoRefreshEnabled : bool;
  unlistenFn : option EventId
}.

Definition initial : DatabaseListenerState :=
  {| isListening := false; isAutoRefreshEnabled := true; unlistenFn := None |}.

Definition Action := Async DatabaseListenerState.

Definition setListening (listening : bool) : Action unit :=
  set (fun s => {| isListening := listening;
                   isAutoRefreshEnabled := isAutoRefreshEnabled s;
                   unlistenFn := unlistenFn s |});;
  console_log (if listening then "📢 数据库监听状态: 已启动" else "📢 数据库监听状态: 已停止").

Definition setAutoRefreshEnabled (enabled : bool) : Action unit :=
  set (fun s => {| isListening := isListening s;
                   isAutoRefreshEnabled := enabled;
                   unlistenFn := unlistenFn s |});;
  console_log (if enabled then "⚙️ 自动刷新设置: 已启用" else "⚙️ 自动刷新设置: 已禁用").

Definition setUnlistenFn (fn : option EventId) : Action unit :=
  set (fun s => {| isListening := isListening s;
                   isAutoRefreshEnabled := isAutoRefreshEnabled s;
                   unlistenFn := fn |}).

Definition cleanup : Action unit :=
  s ← get;
  match unlistenFn s with
  | Some id =>
      try_catch
        (request (unlisten "database-changed" id);;
         set (fun s => {| isListening := false;
                          isAutoRefreshEnabled := isAutoRefreshEnabled s;
                          unlistenFn := None |});;
         console_log "🧹 数据库监听器已清理")
        (fun e => console_error (String.append "⚠️ 清理数据库监听器失败: " e))
  | None => Ret tt
  end.

End DatabaseStore.

(** ** [useDatabaseListener.ts]: the hooks *)

Module DatabaseListener.
Import DatabaseStore.

Definition startListening : Action unit :=
  try_catch
    (console_log "🎧 启动数据库监听...";;
     await cleanup;;
     fn ← request (listen "database-changed");
     setUnlistenFn (Some fn);;
     setListening true;;
     console_log "✅ 数据库监听已启动")
    (fun e =>
       console_error (String.append "❌ 启动数据库监听失败: " e);;
       setListening false).

Definition stopListening : Action unit :=
  try_catch
    (console_log "⏹️ 停止数据库监听...";;
     await cleanup;;
     setListening false;;
     console_log "✅ 数据库监听已停止")
    (fun e => console_error (String.append "❌ 停止数据库监听失败: " e)).

Definition restartListening : Action unit :=
  await stopListening;;
  await startListening.

(** The [visibilitychange] handler of [useAutoDatabaseListener]; it reads
    [document.hidden] and is the same whatever store it runs beside. *)
Definition handleVisibilityChange {S} (hidden : bool) : Async S unit :=
  if hidden
  then console_log "📴 页面隐藏，暂停数据库监听"
  else console_log "📱 页面显示，恢复数据库监听".

(** The calls a component can make on the hook's result. *)
Inductive Call := start | stop | restart.

Definition perform (c : Call) : Action unit :=
  match c with
  | start => startListening
  | stop => stopListening
  | restart => restartListening
  end.

End DatabaseListener.

(** ** The monitoring store: settings, listener and event fan-out *)

Module DbMonitoringStore.

(** The payload the backend pushes on 'database-changed'. *)
Record Diff := {
  hasChanges : bool;
  changedFields : list string;
  summary : string
}.

Record Payload := {
  newData : string;
  oldData : string;
  diff : option Diff
}.

(** What [handleDatabaseChange] emits on [DATABASE_EVENTS.DATA_CHANGED]. *)
Record DatabaseChangeEvent := {
  timestamp : nat;
  ev_newData : string;
  ev_oldData : string;
  ev_diff : option Diff;
  originalEvent : Payload
}.

(** A consumer callback: a function object, compared by reference ([fn]),
    that returns ([None]) or throws ([Some e]) when called. *)
Record Listener := {
  fn : nat;
  body : DatabaseChangeEvent -> option JsError
}.

(** The zustand state ([dbMonitoringEnabled]) together with the two
    module-level variables of the file: [globalUnlistenFn] and the listener
    array [databaseEventEmitter] keeps for [DATA_CHANGED].  [delivered] logs
    the calls made to consumer callbacks, oldest first. *)
Record DbMonitoringState := {
  dbMonitoringEnabled : bool;
  globalUnlistenFn : option EventId;
  databaseEventEmitter : list Listener;
  delivered : list (nat * DatabaseChangeEvent)
}.

Definition initial : DbMonitoringState :=
  {| dbMonitoringEnabled := true; globalUnlistenFn := None;
     databaseEventEmitter := []; delivered := [] |}.

Definition Action := Async DbMonitoringState.

Definition set_dbMonitoringEnabled (v : bool) (s : DbMonitoringState) : DbMonitoringState :=
  {| dbMonitoringEnabled := v; globalUnlistenFn := globalUnlistenFn s;
     databaseEventEmitter := databaseEventEmitter s; delivered := delivered s |}.

Definition set_globalUnlistenFn (v : option EventId) (s : DbMonitoringState) : DbMonitoringState :=
  {| dbMonitoringEnabled := dbMonitoringEnabled s; globalUnlistenFn := v;
     databaseEventEmitter := databaseEventEmitter s; delivered := delivered s |}.

Definition set_listeners (v : list Listener) (s : DbMonitoringState) : DbMonitoringState :=
  {| dbMonitoringEnabled := dbMonitoringEnabled s; globalUnlistenFn := globalUnlistenFn s;
     databaseEventEmitter := v; delivered := delivered s |}.

Definition called (l : Listener) (ev : DatabaseChangeEvent) (s : DbMonitoringState)
  : DbMonitoringState :=
  {| dbMonitoringEnabled := dbMonitoringEnabled s; globalUnlistenFn := globalUnlistenFn s;
     databaseEventEmitter := databaseEventEmitter s;
     delivered := delivered s ++ [(fn l, ev)] |}.

(** *** [EventEmitter] of the [events] package

    The store imports [EventEmitter] from the npm package [events] (Node's
    emitter), which is outside the sources.  These three definitions follow
    the package's documented behaviour: [on] appends to the listener array;
    [off] (an alias of [removeListener]) searches the array from its end and
    splices out the most recently added instance of the listener, and does
    nothing when there is none; [emit] calls the listeners of a copy of the
    array synchronously, in order, returns whether there were any, and has no
    handler around the calls, so a listener's exception leaves [emit]. *)

Definition on (l : Listener) (ls : list Listener) : list Listener := ls ++ [l].

Fixpoint position (l : Listener) (ls : list Listener) : option nat :=
  match ls with
  | [] => None
  | x :: xs =>
      match position l xs with
      | Some i => Some (S i)
      | None => if decide (fn x = fn l) then Some 0 else None
      end
  end.

Definition off (l : Listener) (ls : list Listener) : list Listener :=
  match position l ls with
  | Some i => delete i ls
  | None => ls
  end.

Fixpoint call_each (ls : list Listener) (ev : DatabaseChangeEvent) : Action unit :=
  match ls with
  | [] => Ret tt
  | l :: rest =>
      set (called l ev);;
      match body l ev with
      | Some e => Throw e
      | None => call_each rest ev
      end
  end.

Definition emit (ev : DatabaseChangeEvent) : Action bool :=
  s ← get;
  match databaseEventEmitter s with
  | [] => Ret false
  | ls => call_each ls ev;; Ret true
  end.

(** *** The store's actions *)

Definition cleanup : Action unit :=
  s ← get;
  match globalUnlistenFn s with
  | Some id =>
      try_catch
        (request (unlisten "database-changed" id);;
         set (set_globalUnlistenFn None);;
         console_log "🧹 数据库监听器已清理")
        (fun e => console_error (String.append "⚠️ 清理数据库监听器失败: " e))
  | None => Ret tt
  end.

(** The object [handleDatabaseChange] builds from the pushed payload; [now]
    is what [Date.now()] reads. *)
Definition change_event (now : nat) (payload : Payload) : DatabaseChangeEvent :=
  {| timestamp := now; ev_newData := newData payload;
     ev_oldData := oldData payload; ev_diff := diff payload;
     originalEvent := payload |}.

(** The handler [startListening] passes to [listen]. *)
Definition handleDatabaseChange (now : nat) (payload : Payload) : Action unit :=
  console_log "📡 接收到数据库变化事件";;
  match diff payload with
  | Some _ => console_log "📊 变化摘要:"
  | None => Ret tt
  end;;
  console_log "🔄 数据库变化事件，触发界面更新";;
  emit (change_event now payload);;
  console_log "✅ 数据库变化事件已发射".

Definition startListening : Action unit :=
  try_catch
    (console_log "🎧 启动数据库监听...";;
     await cleanup;;
     id ← request (listen "database-changed");
     set (set_globalUnlistenFn (Some id));;
     fire (invoke start_database_monitoring);;
     console_log "✅ 数据库监听已启动")
    (fun e => console_error (String.append "❌ 启动数据库监听失败: " e)).

Definition stopListening : Action unit :=
  try_catch
    (console_log "⏹️ 停止数据库监听...";;
     await cleanup;;
     console_log "✅ 数据库监听已停止")
    (fun e => console_error (String.append "❌ 停止数据库监听失败: " e)).

(** [Promise<boolean>]; the [catch] branch ends without a [return], so the
    promise then resolves with [undefined], which is [None] here. *)
Definition loadSettings : Action (option bool) :=
  try_catch
    (request (invoke is_db_monitoring_enabled) ≫= fun enabled : bool =>
     set (set_dbMonitoringEnabled enabled);;
     (if enabled then spawn startListening else Ret tt);;
     console_log "📋 数据库监控设置已同步";;
     Ret (Some enabled))
    (fun e =>
       console_error (String.append "加载监控设置失败: " e);;
       set (set_dbMonitoringEnabled true);;
       Ret None).

Definition setDbMonitoringEnabled (enabled : bool) : Action unit :=
  try_catch
    (request (invoke (set_db_monitoring_enabled enabled));;
     (if negb enabled then spawn stopListening else Ret tt);;
     set (set_dbMonitoringEnabled enabled);;
     console_log "📋 数据库监控设置已更新")
    (fun e =>
       console_error (String.append "设置监控状态失败: " e);;
       Throw e).

Definition toggleDbMonitoring : Action unit :=
  s ← get;
  await (setDbMonitoringEnabled (negb (dbMonitoringEnabled s))).

(** [addListener] returns the closure [() => databaseEventEmitter.off(event,
    listener)]; the closure holds nothing but the listener. *)
Record Unsubscribe := Off { listener : Listener }.

Definition addListener (l : Listener) : Action Unsubscribe :=
  set (fun s => set_listeners (on l (databaseEventEmitter s)) s);;
  Ret (Off l).

Definition unsubscribe (u : Unsubscribe) : Action unit :=
  set (fun s => set_listeners (off (listener u) (databaseEventEmitter s)) s).

End DbMonitoringStore.

(** ** The monitoring switch of the business settings dialog *)

Module BusinessSettingsDialog.

Inductive MessageType := success | error | warning | info.

(** The [useState] cells the two handlers touch. *)
Record DialogState := {
  isDbMonitoringEnabled : bool;
  isSettingsLoading : bool;
  message : string;
  messageType : MessageType
}.

Definition initial : DialogState :=
  {| isDbMonitoringEnabled := true; isSettingsLoading := false;
     message := ""; messageType := info |}.

Definition setIsDbMonitoringEnabled (v : bool) : Async DialogState unit :=
  set (fun s => {| isDbMonitoringEnabled := v; isSettingsLoading := isSettingsLoading s;
                   message := message s; messageType := messageType s |}).

Definition setIsSettingsLoading (v : bool) : Async DialogState unit :=
  set (fun s => {| isDbMonitoringEnabled := isDbMonitoringEnabled s; isSettingsLoading := v;
                   message := message s; messageType := messageType s |}).

Definition setMessage (v : string) : Async DialogState unit :=
  set (fun s => {| isDbMonitoringEnabled := isDbMonitoringEnabled s;
                   isSettingsLoading := isSettingsLoading s;
                   message := v; messageType := messageType s |}).

Definition setMessageType (v : MessageType) : Async DialogState unit :=
  set (fun s => {| isDbMonitoringEnabled := isDbMonitoringEnabled s;
                   isSettingsLoading := isSettingsLoading s;
                   message := message s; messageType := v |}).

Definition loadCurrentSettings : Async DialogState unit :=
  setIsSettingsLoading true;;
  try_finally
    (try_catch
       (request (invoke is_db_monitoring_enabled) ≫= fun dbMonitoringEnabled : bool =>
        setIsDbMonitoringEnabled dbMonitoringEnabled)
       (fun e =>
          console_error (String.append "加载设置失败: " e);;
          setIsDbMonitoringEnabled true))
    (setIsSettingsLoading false).

Definition handleDbMonitoringToggle (enabled : bool) : Async DialogState unit :=
  try_catch
    (request (invoke (save_db_monitoring_state enabled)) ≫= fun result : string =>
     setIsDbMonitoringEnabled enabled;;
     setMessage result;;
     setMessageType success;;
     setTimeout (setMessage ""))
    (fun e =>
       setMessage (String.append "设置失败: " e);;
       setMessageType error).

End BusinessSettingsDialog.

(** ** [SimpleEncryption.validatePassword] *)

Module SimpleEncryption.

(** A JavaScript string is a sequence of UTF-16 code units, and [.length]
    counts them. *)
Definition JsString := list N.

Record Validation := {
  isValid : bool;
  message : option string
}.

Definition validatePassword (password : JsString) : Validation :=
  if length password <? 4
  then {| isValid := false; message := Some "密码长度至少为4位" |}
  else if 50 <? length password
  then {| isValid := false; message := Some "密码长度不能超过50位" |}
  else {| isValid := true; message := None |}.

(** *** [xorEncrypt] *)

(** [new TextEncoder().encode(s)]: the UTF-8 bytes of the string's code
    points.  A surrogate pair is one code point; a surrogate outside a pair is
    encoded as U+FFFD. *)
Definition utf8_of_code_point (c : N) : list N :=
  if (c <? 0x80)%N then [c]
  else if (c <? 0x800)%N then [0xC0 + c / 64; 0x80 + c mod 64]%N
  else if (c <? 0x10000)%N then
    [0xE0 + c / 4096; 0x80 + (c / 64) mod 64; 0x80 + c mod 64]%N
  else
    [0xF0 + c / 262144; 0x80 + (c / 4096) mod 64; 0x80 + (c / 64) mod 64; 0x80 + c mod 64]%N.

Definition is_high_surrogate (u : N) : bool := ((0xD800 <=? u) && (u <? 0xDC00))%N.
Definition is_low_surrogate (u : N) : bool := ((0xDC00 <=? u) && (u <? 0xE000))%N.

Definition pair_code_point (u v : N) : N :=
  (0x10000 + (u - 0xD800) * 0x400 + (v - 0xDC00))%N.

Definition replacement : list N := [0xEF; 0xBF; 0xBD]%N.

Fixpoint encode (s : JsString) : list N :=
  match s with
  | [] => []
  | u :: rest =>
      if is_high_surrogate u then
        match rest with
        | v :: rest' =>
            if is_low_surrogate v
            then utf8_of_code_point (pair_code_point u v) ++ encode rest'
            else replacement ++ encode rest
        | [] => replacement
        end
      else if is_low_surrogate u then replacement ++ encode rest
      else utf8_of_code_point u ++ encode rest
  end.

(** [String.fromCharCode(...codes)]: each number becomes one code unit. *)
Definition fromCharCode (codes : list N) : JsString := map (fun c => c mod 65536)%N codes.

Import Stdlib.Strings.Ascii.

(** [btoa]: base64 of a string whose code units are all below 256; it throws
    ([None]) on any other string. *)
Definition alphabet : string :=
  "ABCDEFGHIJKLMNOPQRSTUVWXYZabcdefghijklmnopqrstuvwxyz0123456789+/".

Definition sextet (i : N) : Ascii.ascii :=
  default "="%char (String.get (N.to_nat i) alphabet).

Fixpoint base64 (bs : list N) : string :=
  match bs with
  | [] => ""
  | [a] => String (sextet (a / 4)) (String (sextet ((a mod 4) * 16)) "==")
  | [a; b] =>
      String (sextet (a / 4)) (String (sextet ((a mod 4) * 16 + b / 16))
        (String (sextet ((b mod 16) * 4)) "="))
  | a :: b :: c :: rest =>
      String (sextet (a / 4)) (String (sextet ((a mod 4) * 16 + b / 16))
        (String (sextet ((b mod 16) * 4 + c / 64)) (String (sextet (c mod 64))
          (base64 rest))))
  end%N.

Definition btoa (s : JsString) : option string :=
  if forallb (fun c => c <? 256)%N s then Some (base64 s) else None.

(** [keyBytes[i % keyBytes.length]] as the operand of [^].  With an empty key
    the index is [NaN], the element [undefined], and [^] reads it as 0. *)
Definition keyByte (keyBytes : list N) (i : nat) : N :=
  default 0%N (keyBytes !! (i `mod` length keyBytes)).

(** The loop that fills [encrypted]; a [Uint8Array] keeps the low 8 bits of
    what is stored in it. *)
Definition xorBytes (textBytes keyBytes : list N) : list N :=
  imap (fun i t => (N.lxor t (keyByte keyBytes i)) mod 256)%N textBytes.

Section Engine.

(** A call takes a bounded number of arguments, and the bound is the
    engine's, not the language's: [String.fromCharCode(...encrypted)] throws a
    [RangeError] ([None]) when [encrypted] is longer. *)
Variable argument_limit : nat.

Definition xorEncrypt (text key : JsString) : option string :=
  let textBytes := encode text in
  let keyBytes := encode key in
  let encrypted := xorBytes textBytes keyBytes in
  if argument_limit <? length encrypted then None
  else btoa (fromCharCode encrypted).

End Engine.

End SimpleEncryption.

(** ** [useDatabaseListener.ts]: the event handler and the automatic hook *)

(** An action on a store [S] run on a larger state [T] that holds it. *)
Fixpoint zoom {S T A : Type} (view : T -> S) (update : S -> T -> T) (t : Async S A)
  : Async T A :=
  match t with
  | Ret a => Ret a
  | Throw e => Throw e
  | Get k => Get (fun x => zoom view update (k (view x)))
  | Modify f k => Modify (fun x => update (f (view x)) x) (zoom view update k)
  | Console l k => Console l (zoom view update k)
  | Ipc r k => Ipc r (fun v => zoom view update (k v))
  | Tick k => Tick (zoom view update k)
  | Fork c k => Fork (zoom view update c) (zoom view update k)
  end.

Module UseDatabaseListener.
Import DatabaseStore DatabaseListener.

(** [await new Promise(resolve => setTimeout(resolve, ms))] *)
Definition sleep {S} : Async S unit := Tick (Ret tt).

(** The handler [useDatabaseListener] registers on 'database-changed';
    [actualRefreshBackupList] is the refresh function the component passed,
    or that of [useAppActions]. *)
Definition handleDatabaseChange {S} (actualRefreshBackupList : Async S unit)
    (payload : DbMonitoringStore.Payload) : Async S unit :=
  console_log "📡 接收到数据库变化事件";;
  match DbMonitoringStore.diff payload with
  | Some _ => console_log "📊 变化摘要:"
  | None => Ret tt
  end;;
  console_log "🔄 数据库变化事件，触发界面更新";;
  sleep;;
  await actualRefreshBackupList;;
  console_log "✅ 数据库变化处理完成 - 界面已更新".

(** [useAutoDatabaseListener] keeps [isInitialized] in a [useState] cell
    beside the zustand store. *)
Record HookState := {
  listener : DatabaseListenerState;
  isInitialized : bool
}.

Definition in_store {A} (t : Action A) : Async HookState A :=
  zoom listener (fun s h => {| listener := s; isInitialized := isInitialized h |}) t.

Definition setIsInitialized (v : bool) : Async HookState unit :=
  set (fun h => {| listener := listener h; isInitialized := v |}).

(** The body of the first effect.  [isInitialized] and
    [isAutoRefreshEnabled] are the values the render that created the effect
    saw. *)
Definition manageListening (isInitialized isAutoRefreshEnabled : bool)
  : Async HookState unit :=
  (if negb isInitialized then
     console_log "🔧 初始化数据库监控...";;
     try_catch
       (request (invoke start_database_monitoring);;
        console_log "✅ 后端数据库监控已启动")
       (fun e => console_warn (String.append "⚠️ 启动后端监控失败: " e));;
     setIsInitialized true
   else Ret tt);;
  if isAutoRefreshEnabled
  then await (in_store startListening);; console_log "✅ 前端数据库监听已启动"
  else await (in_store stopListening);; console_log "ℹ️ 前端数据库监听已停止".

End UseDatabaseListener.

(** * Vocabulary of the properties *)

(** ** Environments and worlds used as examples *)

Definition is_listen (r : Request) : bool :=
  match r with listen _ => true | _ => false end.

Definition is_unlisten (r : Request) : bool :=
  match r with unlisten _ _ => true | _ => false end.

Definition is_read (r : Request) : bool :=
  match r with invoke is_db_monitoring_enabled => true | _ => false end.

Definition is_save (r : Request) : bool :=
  match r with
  | invoke (set_db_monitoring_enabled _) | invoke (save_db_monitoring_state _) => true
  | _ => false
  end.

(** A backend that serves every request. *)
Definition obliging : Env := {| refuses := fun _ _ => None; ack := fun _ => "saved" |}.

(** A backend that rejects with [e] the requests [p] selects. *)
Definition refusing (p : Request -> bool) (e : JsError) : Env :=
  {| refuses := fun _ r => if p r then Some e else None; ack := fun _ => "saved" |}.

Definition boot : Backend :=
  {| registered := []; next_event_id := 0; persisted_flag := true;
     watcher_armed := false; journal := [] |}.

(** The number of live registrations on the push channel. *)
Definition live {S} (w : World S) : nat := length (registered (backend w)).

(** The last request the backend served, and whether it succeeded. *)
Definition last_request {S} (w : World S) : option (Request * bool) :=
  last (journal (backend w)).

(** ** The listener hook *)

Section ListenerVocabulary.
Import DatabaseStore DatabaseListener.

(** The store and backend before the first call. *)
Definition idle : World DatabaseListenerState :=
  {| store := DatabaseStore.initial; backend := boot; console := [] |}.

Definition fresh : Loop DatabaseListenerState := {| world := idle; pool := [] |}.

(** A world in which registration 0 is live and its handle is stored. *)
Definition subscribed : World DatabaseListenerState :=
  {| store := {| isListening := true; isAutoRefreshEnabled := true; unlistenFn := Some 0 |};
     backend := {| registered := [0]; next_event_id := 1; persisted_flag := true;
                   watcher_armed := true; journal := [(listen "database-changed", true)] |};
     console := [] |}.

(** What a component does with the hook: it calls one of its three
    functions, or the event loop lets a pending call go on. *)
Inductive Move := call (c : Call) | proceed (i : nat).

Definition as_turn (m : Move) : Turn DatabaseListenerState :=
  match m with
  | call c => Start (perform c)
  | proceed i => Resume i
  end.

Definition play (env : Env) (ms : list Move) : Loop DatabaseListenerState :=
  turns env (map as_turn ms) fresh.

(** Two [startListening()] calls made back to back: both pass [cleanup]
    before either registration has come back. *)
Definition overlapping : list Move :=
  [call start; call start; proceed 0; proceed 1; proceed 0; proceed 1].

(** Calls made one after the other, each left to settle. *)
Definition in_turn : list Move :=
  [call start; proceed 0; proceed 0;
   call restart; proceed 1; proceed 1; proceed 1; proceed 1; proceed 1; proceed 1;
   call stop; proceed 2; proceed 2].

(** The live registrations are exactly the one whose handle the store holds. *)
Definition coherent (w : World DatabaseListenerState) : Prop :=
  registered (backend w) = option_list (unlistenFn (store w)).

(** The backend never rejects an [unlisten]. *)
Definition gentle (env : Env) : Prop :=
  forall n ev id, refuses env n (unlisten ev id) = None.

(** A call that is alone in the pool is on course: settled in a coherent
    world, or suspended with at most one registration live and on course
    again after it resumes. *)
Inductive OnCourse (env : Env) : Action unit -> World DatabaseListenerState -> Prop :=
| on_course_settled t w : settled t = true -> coherent w -> OnCourse env t w
| on_course_suspended t w :
    settled t = false ->
    live w <= 1 ->
    (resume env t w).2 = [] ->
    OnCourse env (resume env t w).1.1 (resume env t w).1.2 ->
    OnCourse env t w.

(** The pool holds settled calls and at most one call on course after them. *)
Definition orderly (env : Env) (l : Loop DatabaseListenerState) : Prop :=
  (pool l = [] /\ coherent (world l)) \/
  exists done t,
    pool l = done ++ [t] /\ forallb settled done = true /\ OnCourse env t (world l).

End ListenerVocabulary.

(** ** The monitoring store *)

Section MonitoringVocabulary.
Import DbMonitoringStore.

Definition blank : World DbMonitoringState :=
  {| store := DbMonitoringStore.initial; backend := boot; console := [] |}.

Definition emitter (w : World DbMonitoringState) : list Listener :=
  databaseEventEmitter (store w).

(** Consumers register in the order of the list. *)
Fixpoint subscribe_all (ls : list Listener) : Action (list Unsubscribe) :=
  match ls with
  | [] => Ret []
  | l :: rest => u ← addListener l; us ← subscribe_all rest; Ret (u :: us)
  end.

(** The trace a call of [l] with [ev] leaves in [delivered]. *)
Definition receipt (ev : DatabaseChangeEvent) (l : Listener) : nat * DatabaseChangeEvent :=
  (fn l, ev).

(** None of the callbacks throws on [ev]. *)
Definition quiet (ev : DatabaseChangeEvent) (ls : list Listener) : Prop :=
  Forall (fun l => body l ev = None) ls.

(** The store after the callbacks [ls] were called with [ev], in order. *)
Definition handed (ls : list Listener) (ev : DatabaseChangeEvent) (s : DbMonitoringState)
  : DbMonitoringState :=
  {| dbMonitoringEnabled := dbMonitoringEnabled s; globalUnlistenFn := globalUnlistenFn s;
     databaseEventEmitter := databaseEventEmitter s;
     delivered := delivered s ++ map (receipt ev) ls |}.

(** The registrations of callbacks other than [l]. *)
Definition others (l : Listener) (ls : list Listener) : list Listener :=
  filter (fun x => fn x ≠ fn l) ls.

(** The deliveries made to callbacks other than [l]. *)
Definition to_others (l : Listener) (rs : list (nat * DatabaseChangeEvent))
  : list (nat * DatabaseChangeEvent) :=
  filter (fun r => r.1 ≠ fn l) rs.

Definition sample : Payload := {| newData := "{}"; oldData := "{}"; diff := None |}.

Definition steady (n : nat) : Listener := {| fn := n; body := fun _ => None |}.
Definition faulty (n : nat) : Listener := {| fn := n; body := fun _ => Some "boom" |}.

(** Three consumers, the second of which throws. *)
Definition fanout_with_fault : Action unit :=
  subscribe_all [steady 1; faulty 2; steady 3];;
  handleDatabaseChange 0 sample.

(** Two consumers register the same function; the first unregisters twice;
    then a change is published. *)
Definition twice_unsubscribed : Action unit :=
  mine ← addListener (steady 7);
  yours ← addListener (steady 7);
  unsubscribe mine;;
  unsubscribe mine;;
  handleDatabaseChange 0 sample.

End MonitoringVocabulary.

(** ** Requests, and backends that serve them *)

Global Instance command_eq_dec : EqDecision Command.
Proof. solve_decision. Defined.

Global Instance request_eq_dec : EqDecision Request.
Proof. solve_decision. Defined.

(** The journal entries of the requests [r] the backend has seen. *)
Definition requests_of {S} (r : Request) (w : World S) : list (Request * bool) :=
  filter (fun e => e.1 = r) (journal (backend w)).

(** The backend rejects nothing. *)
Definition peaceful (env : Env) : Prop := forall n r, refuses env n r = None.

(** The world after [handleDatabaseChange] has announced an event. *)
Definition announced {S} (payload : DbMonitoringStore.Payload) (w : World S) : World S :=
  printed (Line LOG "🔄 数据库变化事件，触发界面更新")
    (match DbMonitoringStore.diff payload with
     | Some _ => printed (Line LOG "📊 变化摘要:")
     | None => fun w => w
     end (printed (Line LOG "📡 接收到数据库变化事件") w)).

(** A monitoring store whose listener is registered: registration 0 is live
    and its handle is stored. *)
Definition listening : World DbMonitoringStore.DbMonitoringState :=
  {| store := DbMonitoringStore.set_globalUnlistenFn (Some 0) DbMonitoringStore.initial;
     backend := {| registered := [0]; next_event_id := 1; persisted_flag := true;
                   watcher_armed := true; journal := [(listen "database-changed", true)] |};
     console := [] |}.

(** The dialog as it opens. *)
Definition opened : World BusinessSettingsDialog.DialogState :=
  {| store := BusinessSettingsDialog.initial; backend := boot; console := [] |}.

(** ** Encryption *)

Section EncryptionVocabulary.
Import Stdlib.Strings.Ascii SimpleEncryption.

(** Strings as JavaScript has them: every code unit fits 16 bits. *)
Definition well_formed (s : JsString) : Prop := Forall (fun u => u < 65536)%N s.

Definition bytes (bs : list N) : Prop := Forall (fun b => b < 256)%N bs.

(** The reading of [xorEncrypt]'s output back: base64 decoding, then the same
    XOR with the key.  The sources leave decryption to the backend; this is
    the decryption the format calls for. *)
Fixpoint index_in (ch : Ascii.ascii) (s : string) : option nat :=
  match s with
  | EmptyString => None
  | String c s' => if Ascii.eqb c ch then Some 0 else S <$> index_in ch s'
  end.

Definition unsextet (ch : Ascii.ascii) : option N := N.of_nat <$> index_in ch alphabet.

Fixpoint unbase64 (s : string) : option (list N) :=
  match s with
  | EmptyString => Some []
  | String c1 (String c2 (String c3 (String c4 rest))) =>
      s1 ← unsextet c1;
      s2 ← unsextet c2;
      if Ascii.eqb c3 "=" then
        match Ascii.eqb c4 "=", rest with
        | true, EmptyString => Some [s1 * 4 + s2 / 16]%N
        | _, _ => None
        end
      else
        s3 ← unsextet c3;
        if Ascii.eqb c4 "=" then
          match rest with
          | EmptyString => Some [s1 * 4 + s2 / 16; (s2 mod 16) * 16 + s3 / 4]%N
          | _ => None
          end
        else
          s4 ← unsextet c4;
          tl ← unbase64 rest;
          Some ((s1 * 4 + s2 / 16) :: ((s2 mod 16) * 16 + s3 / 4)
                  :: ((s3 mod 4) * 64 + s4) :: tl)%N
  | _ => None
  end.

Definition xorDecrypt (out : string) (key : JsString) : option (list N) :=
  bs ← unbase64 out; Some (xorBytes bs (encode key)).

End EncryptionVocabulary.

Ltac euclid := zify; Z.to_euclidean_division_equations; lia.

Ltac backend_cases env :=
  cbn;
  repeat (unfold serve;
          match goal with
          | |- context [refuses env ?n ?r] => destruct (refuses env n r)
          end; cbn).

(** * Properties *)

(** ** The interpreter *)

Lemma run_bind {S A B} env (t : Async S A) (f : A -> Async S B) w :
  run env (bind t f) w =
    match run env t w with
    | (inr a, w', sp) => let '(r, w'', sp') := run env (f a) w' in (r, w'', sp ++ sp')
    | (inl e, w', sp) => (inl e, w', sp)
    end.
Proof.
  revert B f w.
  induction t as [A a | A e | A k IH | A g k IH | A l k IH | A r k IH | A k IH | A c _ k IH];
    intros B f w; simpl.
  - destruct (run env (f a) w) as [[r w'] sp]. reflexivity.
  - reflexivity.
  - apply IH.
  - apply IH.
  - apply IH.
  - destruct (serve env r (backend w)) as [v b]. apply IH.
  - apply IH.
  - destruct (advance c w) as [[c' w1] sp1]. rewrite IH.
    destruct (run env k w1) as [[[e | a] w2] sp2]; [reflexivity |].
    destruct (run env (f a) w2) as [[r w3] sp3]. by rewrite !app_assoc.
Qed.

Lemma run_try_catch {S A} env (t : Async S A) (h : JsError -> Async S A) w :
  run env (try_catch t h) w =
    match run env t w with
    | (inl e, w', sp) => let '(r, w'', sp') := run env (h e) w' in (r, w'', sp ++ sp')
    | (inr a, w', sp) => (inr a, w', sp)
    end.
Proof.
  revert h w.
  induction t as [A a | A e | A k IH | A g k IH | A l k IH | A r k IH | A k IH | A c _ k IH];
    intros h w; simpl.
  - reflexivity.
  - destruct (run env (h e) w) as [[r w'] sp]. reflexivity.
  - apply IH.
  - apply IH.
  - apply IH.
  - destruct (serve env r (backend w)) as [v b]. apply IH.
  - apply IH.
  - destruct (advance c w) as [[c' w1] sp1]. rewrite IH.
    destruct (run env k w1) as [[[e | a] w2] sp2]; [| reflexivity].
    destruct (run env (h e) w2) as [[r w3] sp3]. by rewrite !app_assoc.
Qed.

(** Running a task to its end is running its synchronous stretch and then
    the rest, and for a suspended task resuming it and then running the rest:
    [run] iterates the steps the event loop takes on one task. *)
Lemma run_advance {S A} env (t : Async S A) w :
  run env t w =
    let '(t', w1, sp1) := advance t w in
    let '(r, w2, sp2) := run env t' w1 in (r, w2, sp1 ++ sp2).
Proof.
  revert w.
  induction t as [A a | A e | A k IH | A g k IH | A l k IH | A r k IH | A k IH | A c _ k IH];
    intros w; simpl; try apply IH; try reflexivity.
  - destruct (serve env r (backend w)) as [v b].
    destruct (run env (k v) (with_backend b w)) as [[res w2] sp2]. reflexivity.
  - destruct (run env k w) as [[res w2] sp2]. reflexivity.
  - destruct (advance c w) as [[c' w1] sp1]. rewrite IH.
    destruct (advance k w1) as [[k' w2] sp2].
    destruct (run env k' w2) as [[res w3] sp3]. by rewrite !app_assoc.
Qed.

Lemma run_resume {S A} env (t : Async S A) w :
  settled t = false ->
  run env t w =
    let '(t', w1, sp1) := resume env t w in
    let '(r, w2, sp2) := run env t' w1 in (r, w2, sp1 ++ sp2).
Proof.
  destruct t as [a | e | k | g k | l k | r k | k | c k]; try discriminate; intros _.
  all: try (unfold resume; destruct (run env _ w) as [[res w2] sp2]; reflexivity).
  - simpl. destruct (serve env r (backend w)) as [v b]. apply run_advance.
  - simpl. apply run_advance.
Qed.

Lemma resume_settled {S A} env (t : Async S A) w :
  settled t = true -> resume env t w = (t, w, []).
Proof. destruct t; try discriminate; reflexivity. Qed.

Lemma one_at_a_time_take {S} env (xs : list (Turn S)) n l :
  one_at_a_time env xs l -> one_at_a_time env (take n xs) l.
Proof.
  revert n l. induction xs as [|x xs IH]; intros [|n] l; simpl; try done.
  intros [Hq Hs]. split; [exact Hq | by apply IH].
Qed.

(** ** C1: registrations on the push channel *)

Section Registrations.
Import DatabaseStore DatabaseListener.

Ltac answer Hg :=
  cbn; unfold serve; cbn;
  first [ rewrite Hg; cbn; try (case_decide; [congruence |])
        | match goal with |- context [refuses ?env ?n (listen ?ev)] =>
            destruct (refuses env n (listen ev)); cbn end
        | idtac ].

Ltac crank Hg :=
  first
    [ apply on_course_settled; [reflexivity | reflexivity]
    | apply on_course_suspended;
      [ reflexivity | cbn; lia | answer Hg; reflexivity | answer Hg; crank Hg ] ].

Lemma perform_on_course env c w :
  gentle env -> coherent w ->
  (advance (perform c) w).2 = [] /\
  OnCourse env (advance (perform c) w).1.1 (advance (perform c) w).1.2.
Proof.
  intros Hg Hc.
  destruct w as [[isL auto fn] [reg nxt flag armed jr] con].
  unfold coherent in Hc. simpl in Hc. subst reg.
  destruct c, fn as [id|]; (split; [reflexivity |]); cbn.
  all: crank Hg.
Qed.

Lemma coherent_live w : coherent w -> live w <= 1.
Proof.
  unfold coherent, live. intros ->. destruct (unlistenFn (store w)); simpl; lia.
Qed.

Lemma on_course_live env t w : OnCourse env t w -> live w <= 1.
Proof. destruct 1 as [t w _ Hc | t w _ Hl _ _]; [by apply coherent_live | exact Hl]. Qed.

Lemma on_course_coherent env t w : OnCourse env t w -> settled t = true -> coherent w.
Proof. destruct 1; congruence. Qed.

Lemma orderly_live env l : orderly env l -> live (world l) <= 1.
Proof.
  intros [[_ Hc] | (done & t & _ & _ & Ht)];
    [by apply coherent_live | by apply on_course_live with env t].
Qed.

Lemma orderly_coherent env l : orderly env l -> quiescent l = true -> coherent (world l).
Proof.
  intros [[_ Hc] | (done & t & Hp & _ & Ht)] Hq; [exact Hc |].
  apply (on_course_coherent env t); [exact Ht |].
  unfold quiescent in Hq. rewrite Hp, forallb_app in Hq. simpl in Hq.
  destruct (settled t); [reflexivity |]. rewrite andb_false_r in Hq. discriminate.
Qed.

Lemma orderly_call env c l :
  gentle env -> orderly env l -> quiescent l = true ->
  orderly env (turn env (Start (perform c)) l).
Proof.
  intros Hg Ho Hq. pose proof (orderly_coherent env l Ho Hq) as Hc.
  destruct (perform_on_course env c (world l) Hg Hc) as [Hsp Ht].
  unfold turn. destruct (advance (perform c) (world l)) as [[t' w'] sp].
  simpl in *. subst sp. right. exists (pool l), t'. simpl. auto.
Qed.

Lemma orderly_proceed env i l :
  orderly env l -> orderly env (turn env (Resume i) l).
Proof.
  intros Ho. unfold turn.
  destruct (pool l !! i) as [t|] eqn:Hi; [| exact Ho].
  destruct (settled t) eqn:Hs.
  { rewrite (resume_settled env t _ Hs). rewrite list_insert_id by exact Hi.
    rewrite app_nil_r. destruct l; exact Ho. }
  destruct Ho as [[Hp _] | (done & t0 & Hp & Hd & Ht)].
  { rewrite Hp in Hi. discriminate. }
  rewrite Hp in Hi.
  destruct (decide (i < length done)) as [Hlt | Hge].
  { rewrite lookup_app_l in Hi by exact Hlt.
    assert (settled t = true); [| congruence].
    rewrite forallb_forall in Hd. apply Hd, list_elem_of_In, list_elem_of_lookup. eauto. }
  rewrite lookup_app_r in Hi by lia.
  destruct (i - length done) as [|k] eqn:Hk; [| destruct k; discriminate].
  simpl in Hi. injection Hi as ->. assert (i = length done) as -> by lia.
  destruct Ht as [t w Hs' _ | t w _ _ Hsp Hnext]; [congruence |].
  destruct (resume env t w) as [[t' w'] sp]. simpl in *. subst sp.
  right. exists done, t'. rewrite Hp, app_nil_r.
  rewrite insert_app_r_alt by lia. rewrite Nat.sub_diag. simpl. auto.
Qed.

Lemma orderly_turns env ms l :
  gentle env -> orderly env l -> one_at_a_time env (map as_turn ms) l ->
  orderly env (turns env (map as_turn ms) l).
Proof.
  intros Hg. revert l. induction ms as [|m ms IH]; intros l Ho Hs; [exact Ho |].
  destruct Hs as [Hq Hs]. simpl. apply IH; [| exact Hs].
  destruct m as [c | i]; simpl in *; [apply orderly_call | apply orderly_proceed]; auto.
Qed.

Lemma orderly_play env ms :
  gentle env -> one_at_a_time env (map as_turn ms) fresh -> orderly env (play env ms).
Proof.
  intros Hg Hs. apply orderly_turns; [exact Hg | | exact Hs]. left. split; reflexivity.
Qed.

(** C1, as stated, fails: two [startListening()] calls made back to back on
    a backend that serves every request both register a handler.  When both
    have settled, two registrations are live and the store holds the handle
    of the second only. *)
Lemma overlapping_starts_register_twice :
  quiescent (play obliging overlapping) = true /\
  registered (backend (world (play obliging overlapping))) = [0; 1] /\
  unlistenFn (store (world (play obliging overlapping))) = Some 1 /\
  live (world (play obliging overlapping)) = 2.
Proof. repeat split. Qed.

(** C1, amended: when [startListening], [stopListening] and
    [restartListening] are called one at a time (each call settles before the
    next is made) and the backend rejects no [unlisten], at most one
    registration is live after every step of the event loop, and whenever the
    calls have settled the live registrations are exactly the one whose handle
    the store holds: none or one. *)
Theorem calls_in_turn_keep_one_registration env (ms : list Move) :
  gentle env ->
  one_at_a_time env (map as_turn ms) fresh ->
  forall n,
    live (world (play env (take n ms))) <= 1 /\
    (quiescent (play env (take n ms)) = true ->
     registered (backend (world (play env (take n ms))))
     = option_list (unlistenFn (store (world (play env (take n ms)))))).
Proof.
  intros Hg Hs n.
  assert (orderly env (play env (take n ms))) as Ho.
  { apply orderly_play; [exact Hg |]. rewrite <- firstn_map. by apply one_at_a_time_take. }
  split; [exact (orderly_live env _ Ho) | exact (orderly_coherent env _ Ho)].
Qed.

Lemma calls_in_turn_witness :
  live (world (play obliging in_turn)) <= 1 /\
  (quiescent (play obliging in_turn) = true ->
   registered (backend (world (play obliging in_turn)))
   = option_list (unlistenFn (store (world (play obliging in_turn))))).
Proof.
  apply (calls_in_turn_keep_one_registration obliging in_turn
           (fun _ _ _ => eq_refl)
           ltac:(vm_compute; tauto)
           (length in_turn)).
Defined.

(** Outside the amended statement: when the backend rejects the [unlisten]
    of [cleanup], [startListening] goes on to register, and the old
    registration stays beside the new one. *)
Lemma rejected_unlisten_then_start :
  registered (backend (after (run (refusing is_unlisten "denied") startListening subscribed)))
    = [0; 1] /\
  unlistenFn (store (after (run (refusing is_unlisten "denied") startListening subscribed)))
    = Some 1.
Proof. split; reflexivity. Qed.

End Registrations.

(** ** C2 and C5: the event fan-out *)

Section Fanout.
Import DbMonitoringStore.

Local Arguments emit : simpl never.

Lemma handed_nil ev (w : World DbMonitoringState) :
  with_store (handed [] ev (store w)) w = w.
Proof. destruct w as [[] ? ?]. unfold with_store, handed. simpl. by rewrite app_nil_r. Qed.

Lemma run_call_each_quiet env ls ev w :
  quiet ev ls ->
  run env (call_each ls ev) w = (inr tt, with_store (handed ls ev (store w)) w, []).
Proof.
  revert w. induction ls as [|l ls IH]; intros w Hq; simpl.
  - by rewrite handed_nil.
  - inversion Hq as [|? ? Hl Hls]; subst. rewrite Hl. rewrite IH by exact Hls.
    unfold with_store, handed, called. simpl. by rewrite <- app_assoc.
Qed.

Lemma run_call_each_thrower env before l rest e ev w :
  quiet ev before -> body l ev = Some e ->
  run env (call_each (before ++ l :: rest) ev) w
  = (inl e, with_store (handed (before ++ [l]) ev (store w)) w, []).
Proof.
  revert w. induction before as [|x before IH]; intros w Hq Hl; simpl.
  - rewrite Hl. reflexivity.
  - inversion Hq as [|? ? Hx Hb]; subst. rewrite Hx. rewrite IH by assumption.
    unfold with_store, handed, called. simpl. by rewrite <- app_assoc.
Qed.

Lemma run_subscribe_all env ls w :
  run env (subscribe_all ls) w
  = (inr (map Off ls),
     with_store (set_listeners (databaseEventEmitter (store w) ++ ls) (store w)) w, []).
Proof.
  revert w. induction ls as [|l ls IH]; intros w; simpl.
  - destruct w as [[] ? ?]. unfold with_store, set_listeners. simpl. by rewrite app_nil_r.
  - unfold mbind, async_bind. rewrite run_bind, IH. simpl.
    unfold with_store, set_listeners, on. simpl. by rewrite <- app_assoc.
Qed.

Lemma run_emit_quiet env ev w :
  quiet ev (emitter w) ->
  run env (emit ev) w
  = (inr (bool_decide (emitter w ≠ [])), with_store (handed (emitter w) ev (store w)) w, []).
Proof.
  unfold emitter. intros Hq. unfold emit, mbind, async_bind. rewrite run_bind. cbn [run get].
  destruct (databaseEventEmitter (store w)) as [|l ls] eqn:Hls.
  - cbn. by rewrite handed_nil.
  - rewrite run_bind, (run_call_each_quiet env (l :: ls) ev w Hq). reflexivity.
Qed.

Lemma run_emit_thrower env ev w before l rest e :
  emitter w = before ++ l :: rest ->
  quiet ev before -> body l ev = Some e ->
  run env (emit ev) w = (inl e, with_store (handed (before ++ [l]) ev (store w)) w, []).
Proof.
  unfold emitter. intros Hls Hq Hl.
  unfold emit, mbind, async_bind. rewrite run_bind. cbn [run get].
  rewrite Hls. destruct (before ++ l :: rest) as [|x xs] eqn:Hx.
  - by destruct before.
  - rewrite <- Hx, run_bind, (run_call_each_thrower env before l rest e ev w Hq Hl).
    reflexivity.
Qed.

Lemma handleDatabaseChange_quiet env now payload w :
  quiet (change_event now payload) (emitter w) ->
  outcome (run env (handleDatabaseChange now payload) w) = inr tt /\
  store (after (run env (handleDatabaseChange now payload) w))
  = handed (emitter w) (change_event now payload) (store w).
Proof.
  intros Hq. unfold handleDatabaseChange, mbind, async_bind.
  destruct (diff payload); cbn; rewrite run_bind, run_emit_quiet by exact Hq; by cbn.
Qed.

Lemma handleDatabaseChange_thrower env now payload w before l rest e :
  emitter w = before ++ l :: rest ->
  quiet (change_event now payload) before ->
  body l (change_event now payload) = Some e ->
  outcome (run env (handleDatabaseChange now payload) w) = inl e /\
  store (after (run env (handleDatabaseChange now payload) w))
  = handed (before ++ [l]) (change_event now payload) (store w).
Proof.
  intros Hls Hq Hl. unfold handleDatabaseChange, mbind, async_bind.
  destruct (diff payload); cbn;
    rewrite run_bind, (run_emit_thrower env _ _ before l rest e) by assumption; by cbn.
Qed.

(** C2, as stated, fails: of three registered consumers of which the second
    throws, the third is never called, and the handler's promise rejects with
    the thrown value. *)
Lemma throwing_consumer_cuts_fanout :
  outcome (run obliging fanout_with_fault blank) = inl "boom"%string /\
  map fst (delivered (store (after (run obliging fanout_with_fault blank)))) = [1; 2].
Proof. split; reflexivity. Qed.

(** C2, amended: consumers registered through [addListener] are kept in
    registration order, and one published notification is handed to them in
    that order, once per registration, up to and including the first consumer
    that throws.  When no consumer throws, every one of the N registrations is
    called exactly once; when one throws, the consumers registered after it are
    not called and the thrown value rejects the handler's promise. *)
Theorem fanout_until_first_throw env (fs : list Listener) now payload w :
  emitter w = [] ->
  emitter (after (run env (subscribe_all fs) w)) = fs /\
  (quiet (change_event now payload) fs ->
   outcome (run env (handleDatabaseChange now payload) (after (run env (subscribe_all fs) w)))
     = inr tt /\
   delivered (store (after (run env (handleDatabaseChange now payload)
                                     (after (run env (subscribe_all fs) w)))))
     = delivered (store w) ++ map (receipt (change_event now payload)) fs) /\
  (forall before l rest e,
     fs = before ++ l :: rest ->
     quiet (change_event now payload) before ->
     body l (change_event now payload) = Some e ->
     outcome (run env (handleDatabaseChange now payload) (after (run env (subscribe_all fs) w)))
       = inl e /\
     delivered (store (after (run env (handleDatabaseChange now payload)
                                       (after (run env (subscribe_all fs) w)))))
       = delivered (store w) ++ map (receipt (change_event now payload)) (before ++ [l])).
Proof.
  unfold emitter. intros Hw. rewrite run_subscribe_all, Hw. cbn [after fst snd app].
  set (w1 := with_store _ w).
  assert (emitter w1 = fs) as H1 by reflexivity.
  split; [exact H1 | split].
  - intros Hq. rewrite <- H1 in Hq.
    destruct (handleDatabaseChange_quiet env now payload w1 Hq) as [Ho Hs].
    split; [exact Ho |]. rewrite Hs, H1. reflexivity.
  - intros before l rest e Hfs Hq Hl. rewrite Hfs in H1.
    destruct (handleDatabaseChange_thrower env now payload w1 before l rest e H1 Hq Hl)
      as [Ho Hs].
    split; [exact Ho |]. rewrite Hs. reflexivity.
Qed.

Lemma fanout_witness :
  map fst (delivered (store (after (run obliging (handleDatabaseChange 0 sample)
             (after (run obliging (subscribe_all [steady 1; steady 2; steady 3]) blank))))))
  = [1; 2; 3].
Proof.
  destruct (fanout_until_first_throw obliging [steady 1; steady 2; steady 3] 0 sample blank
              eq_refl) as (_ & Hq & _).
  destruct Hq as [_ Hd].
  - repeat constructor.
  - rewrite Hd. reflexivity.
Defined.

Lemma off_cons l x xs :
  off l (x :: xs) =
    match position l xs with
    | Some _ => x :: off l xs
    | None => if decide (fn x = fn l) then xs else x :: xs
    end.
Proof.
  unfold off. simpl. destruct (position l xs) as [i|]; [reflexivity |].
  destruct (decide (fn x = fn l)); reflexivity.
Qed.

Lemma position_absent l ls : position l ls = None <-> fn l ∉ map fn ls.
Proof.
  induction ls as [|x xs IH]; simpl.
  - split; [intros _; apply not_elem_of_nil | reflexivity].
  - rewrite not_elem_of_cons. destruct (position l xs) as [i|].
    + split; [discriminate |]. intros [_ H]. by apply IH in H.
    + destruct (decide (fn x = fn l)) as [E|E].
      * split; [discriminate | intros [H _]; congruence].
      * split; [intros _; split; [congruence | by apply IH] | reflexivity].
Qed.

Lemma off_absent l ls : fn l ∉ map fn ls -> off l ls = ls.
Proof. intros H%position_absent. unfold off. by rewrite H. Qed.

Lemma others_off l ls : others l (off l ls) = others l ls.
Proof.
  unfold others. induction ls as [|x xs IH]; [reflexivity |].
  rewrite off_cons. destruct (position l xs) as [i|].
  - by rewrite !filter_cons, IH.
  - destruct (decide (fn x = fn l)) as [E|E]; [| reflexivity].
    rewrite filter_cons. by destruct (decide (fn x ≠ fn l)).
Qed.

Lemma length_off l ls : length ls <= S (length (off l ls)).
Proof.
  induction ls as [|x xs IH]; [simpl; lia |].
  rewrite off_cons. destruct (position l xs); [simpl; lia |].
  destruct (decide (fn x = fn l)); simpl; lia.
Qed.

Lemma quiet_off ev l ls : quiet ev ls -> quiet ev (off l ls).
Proof.
  unfold quiet. induction ls as [|x xs IH]; [done |].
  intros [Hx Hxs]%Forall_cons. rewrite off_cons.
  destruct (position l xs); [by constructor; auto |].
  destruct (decide (fn x = fn l)); [done | by constructor].
Qed.

Lemma to_others_receipts ev l ls :
  to_others l (map (receipt ev) ls) = map (receipt ev) (others l ls).
Proof.
  unfold to_others, others. induction ls as [|x xs IH]; [reflexivity |].
  simpl. rewrite !filter_cons. simpl. destruct (decide (fn x ≠ fn l)); simpl; by rewrite IH.
Qed.

Lemma others_still_served env (u : Unsubscribe) now payload w :
  quiet (change_event now payload) (emitter w) ->
  to_others (listener u)
    (delivered (store (after (run env (handleDatabaseChange now payload)
                                      (after (run env (unsubscribe u;; unsubscribe u) w))))))
  = to_others (listener u) (delivered (store w))
    ++ map (receipt (change_event now payload)) (others (listener u) (emitter w)).
Proof.
  intros Hq.
  set (w2 := after (run env (unsubscribe u;; unsubscribe u) w)).
  assert (emitter w2 = off (listener u) (off (listener u) (emitter w))) as He by reflexivity.
  assert (delivered (store w2) = delivered (store w)) as Hd by reflexivity.
  destruct (handleDatabaseChange_quiet env now payload w2) as [_ Hs].
  { rewrite He. by do 2 apply quiet_off. }
  rewrite Hs. unfold handed. cbn [delivered]. rewrite Hd, He.
  unfold to_others. rewrite filter_app. f_equal.
  etrans; [apply to_others_receipts |]. by rewrite !others_off.
Qed.

(** [off] removes the instance of the function that was added last: the
    one after which no registration of that function stands. *)
Lemma position_last_instance l l' ls more :
  fn l' = fn l -> fn l ∉ map fn more -> position l (ls ++ l' :: more) = Some (length ls).
Proof.
  intros Hl Hm. apply position_absent in Hm.
  induction ls as [|x xs IH]; simpl.
  - rewrite Hm. by destruct (decide (fn l' = fn l)).
  - by rewrite IH.
Qed.

Lemma off_last_instance l l' ls more :
  fn l' = fn l -> fn l ∉ map fn more -> off l (ls ++ l' :: more) = ls ++ more.
Proof.
  intros Hl Hm. unfold off. rewrite (position_last_instance l l' ls more Hl Hm).
  induction ls as [|x xs IH]; [reflexivity |]. simpl. by rewrite IH.
Qed.

(** C5, as stated, fails: when two consumers registered the same function
    and the first calls its unsubscribe function twice, the second consumer's
    registration is removed as well, and a change published afterwards reaches
    nobody. *)
Lemma double_unsubscribe_silences_twin :
  outcome (run obliging twice_unsubscribed blank) = inr tt /\
  emitter (after (run obliging twice_unsubscribed blank)) = [] /\
  delivered (store (after (run obliging twice_unsubscribed blank))) = [].
Proof. repeat split. Qed.

(** C5, amended: calling the function [addListener] returned once or twice,
    or when its callback is not registered (any more), never throws and leaves
    the registrations of every other callback function intact, in their
    order, so that a notification published afterwards is still handed to each
    of them once; a call removes at most one registration, the most recently
    added one of the handle's callback function, and none when that function
    is not registered. *)
Theorem unsubscribe_spares_other_callbacks env (u : Unsubscribe) now payload w :
  outcome (run env (unsubscribe u) w) = inr tt /\
  outcome (run env (unsubscribe u;; unsubscribe u) w) = inr tt /\
  others (listener u) (emitter (after (run env (unsubscribe u) w)))
    = others (listener u) (emitter w) /\
  others (listener u) (emitter (after (run env (unsubscribe u;; unsubscribe u) w)))
    = others (listener u) (emitter w) /\
  length (emitter w) <= S (length (emitter (after (run env (unsubscribe u) w)))) /\
  (forall earlier l later,
     emitter w = earlier ++ l :: later ->
     fn l = fn (listener u) -> fn (listener u) ∉ map fn later ->
     emitter (after (run env (unsubscribe u) w)) = earlier ++ later) /\
  (fn (listener u) ∉ map fn (emitter w) ->
   emitter (after (run env (unsubscribe u) w)) = emitter w /\
   emitter (after (run env (unsubscribe u;; unsubscribe u) w)) = emitter w) /\
  (quiet (change_event now payload) (emitter w) ->
   to_others (listener u)
     (delivered (store (after (run env (handleDatabaseChange now payload)
                                       (after (run env (unsubscribe u;; unsubscribe u) w))))))
   = to_others (listener u) (delivered (store w))
     ++ map (receipt (change_event now payload)) (others (listener u) (emitter w))).
Proof.
  split; [reflexivity | split; [reflexivity |]].
  split; [apply others_off | split; [| split; [apply length_off | split; [| split]]]].
  - unfold emitter. cbn -[others off]. by rewrite !others_off.
  - intros earlier l later Hw Hl Hlater. unfold emitter in *. cbn -[off].
    rewrite Hw. by apply off_last_instance.
  - intros H. unfold emitter in *. cbn -[off]. by rewrite !(off_absent _ _ H).
  - apply others_still_served.
Qed.

End Fanout.

(** ** C3 and C6: the persisted flag *)

Section Settings.
Import DbMonitoringStore.

(** C3: when the backend rejects [set_db_monitoring_enabled],
    [setDbMonitoringEnabled] rejects with the backend's error, the store
    (with it [dbMonitoringEnabled] and the listener handle) is unchanged, and
    neither [startListening] nor [stopListening] runs: no call is left
    pending, the rejected save is the only request the backend has seen, and
    the console gains the error line only. *)
Theorem failed_save_leaves_state env w enabled e :
  refuses env (length (journal (backend w))) (invoke (set_db_monitoring_enabled enabled))
    = Some e ->
  outcome (run env (setDbMonitoringEnabled enabled) w) = inl e /\
  store (after (run env (setDbMonitoringEnabled enabled) w)) = store w /\
  pending (run env (setDbMonitoringEnabled enabled) w) = [] /\
  backend (after (run env (setDbMonitoringEnabled enabled) w))
    = journalled (invoke (set_db_monitoring_enabled enabled)) false (backend w) /\
  console (after (run env (setDbMonitoringEnabled enabled) w))
    = console w ++ [Line ERROR (String.append "设置监控状态失败: " e)].
Proof.
  intros He. cbn. unfold serve. rewrite He. cbn. done.
Qed.

Lemma failed_save_witness :
  outcome (run (refusing is_save "disk full") (setDbMonitoringEnabled false) blank)
    = inl "disk full"%string /\
  dbMonitoringEnabled (store (after (run (refusing is_save "disk full")
                                         (setDbMonitoringEnabled false) blank))) = true.
Proof.
  destruct (failed_save_leaves_state (refusing is_save "disk full") blank false "disk full"
              eq_refl) as (Ho & Hs & _).
  split; [exact Ho | rewrite Hs; reflexivity].
Defined.

(** The same holds for [toggleDbMonitoring], which awaits
    [setDbMonitoringEnabled]. *)
Lemma failed_toggle_leaves_state env w e :
  refuses env (length (journal (backend w)))
    (invoke (set_db_monitoring_enabled (negb (dbMonitoringEnabled (store w))))) = Some e ->
  outcome (run env toggleDbMonitoring w) = inl e /\
  store (after (run env toggleDbMonitoring w)) = store w /\
  pending (run env toggleDbMonitoring w) = [].
Proof.
  intros He. cbn. unfold serve. rewrite He. cbn. done.
Qed.

(** When the save succeeds the flag follows the request; switching off also
    calls [stopListening], switching on calls nothing. *)
Lemma accepted_save_sets_flag env w enabled :
  refuses env (length (journal (backend w))) (invoke (set_db_monitoring_enabled enabled))
    = None ->
  outcome (run env (setDbMonitoringEnabled enabled) w) = inr tt /\
  dbMonitoringEnabled (store (after (run env (setDbMonitoringEnabled enabled) w))) = enabled /\
  persisted_flag (backend (after (run env (setDbMonitoringEnabled enabled) w))) = enabled.
Proof.
  intros He. cbn. unfold serve. rewrite He.
  destruct enabled; cbn; [done |].
  destruct (globalUnlistenFn (store w)); cbn; done.
Qed.

(** C6 fails on the code where the read of the flag fails: the [catch]
    branch of [loadSettings] stores the default [true] in the store but ends
    without returning it, so the promise resolves with [undefined] instead of
    [true]. *)
Theorem loadSettings_unreadable env w e :
  refuses env (length (journal (backend w))) (invoke is_db_monitoring_enabled) = Some e ->
  outcome (run env loadSettings w) = inr None /\
  dbMonitoringEnabled (store (after (run env loadSettings w))) = true.
Proof.
  intros He. cbn. unfold serve. rewrite He. cbn. done.
Qed.

Lemma loadSettings_unreadable_witness :
  outcome (run (refusing is_read "no settings file") loadSettings blank) = inr None.
Proof.
  apply (loadSettings_unreadable (refusing is_read "no settings file") blank
           "no settings file" eq_refl).
Defined.

(** When the read succeeds, [loadSettings] resolves with the persisted flag
    and stores it. *)
Lemma loadSettings_readable env w :
  refuses env (length (journal (backend w))) (invoke is_db_monitoring_enabled) = None ->
  outcome (run env loadSettings w) = inr (Some (persisted_flag (backend w))) /\
  dbMonitoringEnabled (store (after (run env loadSettings w))) = persisted_flag (backend w).
Proof.
  intros He. cbn. unfold serve. rewrite He. cbn.
  destruct (persisted_flag (backend w)) eqn:Hp; cbn.
  - destruct (globalUnlistenFn (store w)); cbn; done.
  - done.
Qed.

(** [loadSettings] never rejects. *)
Lemma loadSettings_never_rejects env w :
  exists v, outcome (run env loadSettings w) = inr v.
Proof.
  cbn. unfold serve.
  destruct (refuses env (length (journal (backend w))) (invoke is_db_monitoring_enabled));
    cbn; [by eexists |].
  destruct (persisted_flag (backend w)); cbn; [| by eexists].
  destruct (globalUnlistenFn (store w)); cbn; by eexists.
Qed.

Lemma loadSettings_readable_witness :
  outcome (run obliging loadSettings blank) = inr (Some true) /\
  dbMonitoringEnabled (store (after (run obliging loadSettings blank))) = true.
Proof. apply (loadSettings_readable obliging blank eq_refl). Defined.

(** Switching monitoring on persists and stores the flag and does nothing
    else: [startListening] is not called, so no registration is made and no
    call is left pending. *)
Lemma enabling_does_not_subscribe env w :
  refuses env (length (journal (backend w))) (invoke (set_db_monitoring_enabled true))
    = None ->
  outcome (run env (setDbMonitoringEnabled true) w) = inr tt /\
  dbMonitoringEnabled (store (after (run env (setDbMonitoringEnabled true) w))) = true /\
  globalUnlistenFn (store (after (run env (setDbMonitoringEnabled true) w)))
    = globalUnlistenFn (store w) /\
  registered (backend (after (run env (setDbMonitoringEnabled true) w)))
    = registered (backend w) /\
  pending (run env (setDbMonitoringEnabled true) w) = [].
Proof.
  intros He. cbn. unfold serve. rewrite He. cbn. done.
Qed.

Lemma enabling_witness :
  registered (backend (after (run obliging (setDbMonitoringEnabled true) blank))) = [] /\
  pending (run obliging (setDbMonitoringEnabled true) blank) = [].
Proof.
  destruct (enabling_does_not_subscribe obliging blank eq_refl) as (_ & _ & _ & Hr & Hp).
  split; [exact Hr | exact Hp].
Defined.

End Settings.

Section Dialog.
Import BusinessSettingsDialog.

(** The dialog's own loader has no return value; it shows the persisted
    flag, or [true] when the read fails, and never rejects. *)
Lemma loadCurrentSettings_shows_flag env (w : World DialogState) :
  outcome (run env loadCurrentSettings w) = inr tt /\
  isSettingsLoading (store (after (run env loadCurrentSettings w))) = false /\
  isDbMonitoringEnabled (store (after (run env loadCurrentSettings w)))
  = match refuses env (length (journal (backend w))) (invoke is_db_monitoring_enabled) with
    | Some _ => true
    | None => persisted_flag (backend w)
    end.
Proof. backend_cases env; done. Qed.

(** The dialog's switch keeps the displayed flag when the save fails, and
    shows the error instead of rejecting. *)
Lemma handleDbMonitoringToggle_failure env (w : World DialogState) enabled e :
  refuses env (length (journal (backend w))) (invoke (save_db_monitoring_state enabled))
    = Some e ->
  outcome (run env (handleDbMonitoringToggle enabled) w) = inr tt /\
  isDbMonitoringEnabled (store (after (run env (handleDbMonitoringToggle enabled) w)))
    = isDbMonitoringEnabled (store w) /\
  messageType (store (after (run env (handleDbMonitoringToggle enabled) w))) = error /\
  pending (run env (handleDbMonitoringToggle enabled) w) = [].
Proof.
  intros He. cbn. unfold serve. rewrite He. cbn. done.
Qed.

Lemma handleDbMonitoringToggle_witness :
  isDbMonitoringEnabled
    (store (after (run (refusing is_save "disk full") (handleDbMonitoringToggle false)
                       {| store := BusinessSettingsDialog.initial; backend := boot;
                          console := [] |}))) = true.
Proof.
  destruct (handleDbMonitoringToggle_failure (refusing is_save "disk full")
              {| store := BusinessSettingsDialog.initial; backend := boot; console := [] |}
              false "disk full" eq_refl) as (_ & Hf & _).
  exact Hf.
Defined.

End Dialog.

(** ** C4, C7, C8 and C9: the listener hook *)

Section Hook.
Import DatabaseStore DatabaseListener.

(** One [stopListening] from a stopped state. *)
Lemma stop_noop env w :
  unlistenFn (store w) = None -> isListening (store w) = false ->
  outcome (run env stopListening w) = inr tt /\
  store (after (run env stopListening w)) = store w /\
  backend (after (run env stopListening w)) = backend w /\
  pending (run env stopListening w) = [].
Proof.
  intros Hn Hl. destruct w as [[isL auto fn] b con]. cbn in Hn, Hl. subst. cbn. done.
Qed.

(** C4: [stopListening] called while nothing is subscribed (no handle,
    [isListening] false) resolves normally, leaves the store and the backend
    as they were (no request is made) and no call pending; a second
    [stopListening] after it changes nothing either. *)
Theorem stop_when_stopped_is_noop env w :
  unlistenFn (store w) = None -> isListening (store w) = false ->
  outcome (run env stopListening w) = inr tt /\
  store (after (run env stopListening w)) = store w /\
  backend (after (run env stopListening w)) = backend w /\
  pending (run env stopListening w) = [] /\
  store (after (run env stopListening (after (run env stopListening w)))) = store w /\
  backend (after (run env stopListening (after (run env stopListening w)))) = backend w.
Proof.
  intros Hn Hl. destruct (stop_noop env w Hn Hl) as (Ho & Hs & Hb & Hp).
  destruct (stop_noop env (after (run env stopListening w))) as (_ & Hs' & Hb' & _);
    [by rewrite Hs | by rewrite Hs |].
  repeat split; try done; [by rewrite Hs' | by rewrite Hb'].
Qed.

Lemma stop_when_stopped_witness :
  store (after (run obliging stopListening idle)) = store idle /\
  backend (after (run obliging stopListening idle)) = backend idle.
Proof.
  destruct (stop_when_stopped_is_noop obliging idle eq_refl eq_refl) as (_ & Hs & Hb & _).
  split; [exact Hs | exact Hb].
Defined.

(** Whatever the state before, once a [stopListening] has left no handle a
    further [stopListening] changes neither store nor backend. *)
Lemma stop_after_stop env env' w :
  unlistenFn (store (after (run env stopListening w))) = None ->
  store (after (run env' stopListening (after (run env stopListening w))))
    = store (after (run env stopListening w)) /\
  backend (after (run env' stopListening (after (run env stopListening w))))
    = backend (after (run env stopListening w)).
Proof.
  intros Hn.
  assert (isListening (store (after (run env stopListening w))) = false) as Hl.
  { clear Hn. destruct w as [[isL auto [id|]] b con]; backend_cases env; done. }
  destruct (stop_noop env' _ Hn Hl) as (_ & Hs & Hb & _). auto.
Qed.

(** C7, as stated, fails: with registration 0 live, a [stopListening] whose
    [unlisten] is rejected leaves the handle in the store. *)
Lemma failed_unlisten_keeps_handle :
  outcome (run (refusing is_unlisten "denied") stopListening subscribed) = inr tt /\
  unlistenFn (store (after (run (refusing is_unlisten "denied") stopListening subscribed)))
    = Some 0.
Proof. split; reflexivity. Qed.

(** C7, amended: when a handle is stored, [stopListening] resolves normally
    and sets [isListening] to false whether or not the unregistration
    succeeds.  If the backend rejects the [unlisten], the failure is logged
    only and the handle stays in the store (the registration stays live); the
    handle is cleared exactly when the [unlisten] succeeds. *)
Theorem stop_clears_handle_only_on_success env w id :
  unlistenFn (store w) = Some id ->
  outcome (run env stopListening w) = inr tt /\
  isListening (store (after (run env stopListening w))) = false /\
  pending (run env stopListening w) = [] /\
  match refuses env (length (journal (backend w))) (unlisten "database-changed" id) with
  | Some e =>
      unlistenFn (store (after (run env stopListening w))) = Some id /\
      registered (backend (after (run env stopListening w))) = registered (backend w) /\
      Line ERROR (String.append "⚠️ 清理数据库监听器失败: " e)
        ∈ console (after (run env stopListening w))
  | None =>
      unlistenFn (store (after (run env stopListening w))) = None /\
      id ∉ registered (backend (after (run env stopListening w)))
  end.
Proof.
  intros Hf. destruct w as [[isL auto fn] b con]. cbn in Hf. subst. cbn. unfold serve.
  destruct (refuses env (length (journal b)) (unlisten "database-changed" id)) as [e|]; cbn.
  - repeat split; try done. set_solver.
  - repeat split; try done. intros [H _]%list_elem_of_filter. done.
Qed.

Lemma stop_clears_handle_witness :
  unlistenFn (store (after (run (refusing is_unlisten "denied") stopListening subscribed)))
    = Some 0 /\
  isListening (store (after (run (refusing is_unlisten "denied") stopListening subscribed)))
    = false /\
  unlistenFn (store (after (run obliging stopListening subscribed))) = None.
Proof.
  pose proof (stop_clears_handle_only_on_success (refusing is_unlisten "denied") subscribed 0
                eq_refl) as (_ & Hl & _ & Hkept & _).
  pose proof (stop_clears_handle_only_on_success obliging subscribed 0 eq_refl)
    as (_ & _ & _ & Hgone & _).
  split; [exact Hkept | split; [exact Hl | exact Hgone]].
Defined.

(** A [startListening] whose last request, the [listen], succeeded leaves a
    live registration, its handle in the store and [isListening] true. *)
Lemma start_subscribes env w :
  last_request (after (run env startListening w)) = Some (listen "database-changed", true) ->
  outcome (run env startListening w) = inr tt /\
  isListening (store (after (run env startListening w))) = true /\
  exists id, unlistenFn (store (after (run env startListening w))) = Some id /\
             id ∈ registered (backend (after (run env startListening w))).
Proof.
  destruct w as [[isL auto [id|]] b con]; unfold last_request; backend_cases env;
    rewrite ?last_snoc; intros H; try discriminate H;
    (split; [reflexivity | split; [reflexivity |]]); eexists; (split; [reflexivity |]);
    set_solver.
Qed.

(** C8, as stated, fails: a [startListening] whose [listen] is rejected
    resolves normally; the error reaches the console, not the caller. *)
Lemma failed_listen_is_not_surfaced :
  outcome (run (refusing is_listen "channel closed") startListening idle) = inr tt /\
  Line ERROR "❌ 启动数据库监听失败: channel closed"
    ∈ console (after (run (refusing is_listen "channel closed") startListening idle)).
Proof. split; [reflexivity | cbn; set_solver]. Qed.

(** C8, amended: when the [listen] of a [startListening] call is rejected,
    the call still resolves normally and the error is logged, not passed to
    the caller; [isListening] is false and no new handle is stored (the handle
    is none, or the one a failed [cleanup] left behind), so that with no
    handle before there is none after and the registrations are untouched.
    A later [startListening] whose [listen] succeeds subscribes. *)
Theorem failed_listen_is_logged env w :
  last_request (after (run env startListening w)) = Some (listen "database-changed", false) ->
  outcome (run env startListening w) = inr tt /\
  isListening (store (after (run env startListening w))) = false /\
  pending (run env startListening w) = [] /\
  (unlistenFn (store (after (run env startListening w))) = None \/
   unlistenFn (store (after (run env startListening w))) = unlistenFn (store w)) /\
  (unlistenFn (store w) = None ->
   unlistenFn (store (after (run env startListening w))) = None /\
   registered (backend (after (run env startListening w))) = registered (backend w)) /\
  (exists e, Line ERROR (String.append "❌ 启动数据库监听失败: " e)
             ∈ console (after (run env startListening w))) /\
  (forall env',
     last_request (after (run env' startListening (after (run env startListening w))))
       = Some (listen "database-changed", true) ->
     isListening (store (after (run env' startListening (after (run env startListening w)))))
       = true /\
     is_Some (unlistenFn (store (after (run env' startListening
                                               (after (run env startListening w))))))).
Proof.
  intros H.
  assert (forall P : Prop,
            (last_request (after (run env startListening w))
             = Some (listen "database-changed", false) -> P) -> P) as use by auto.
  split; [| split; [| split; [| split; [| split; [| split]]]]].
  1-6: apply use; clear;
    destruct w as [[isL auto [id|]] b con]; unfold last_request; backend_cases env;
    rewrite ?last_snoc; intros H; try discriminate H; try done; eauto;
    try (match goal with j : JsError |- _ => exists j; set_solver end).
  intros env' H'.
  destruct (start_subscribes env' _ H') as (_ & Hl & id & Hid & _).
  split; [exact Hl | by rewrite Hid].
Qed.

Lemma failed_listen_witness :
  outcome (run (refusing is_listen "channel closed") startListening idle) = inr tt /\
  isListening (store (after (run (refusing is_listen "channel closed") startListening idle)))
    = false /\
  isListening (store (after (run obliging startListening
       (after (run (refusing is_listen "channel closed") startListening idle))))) = true.
Proof.
  destruct (failed_listen_is_logged (refusing is_listen "channel closed") idle eq_refl)
    as (Ho & Hl & _ & _ & _ & _ & Hretry).
  split; [exact Ho | split; [exact Hl |]].
  apply (Hretry obliging). reflexivity.
Defined.

(** C9: the [visibilitychange] handler, whether the page was hidden or
    shown, returns normally, leaves the store beside it unchanged (handle,
    listening flag and monitoring flag included), makes no request to the
    backend and starts no call: it only writes to the console. *)
Theorem visibility_change_only_logs {S} env (hidden : bool) (w : World S) :
  outcome (run env (handleVisibilityChange hidden) w) = inr tt /\
  store (after (run env (handleVisibilityChange hidden) w)) = store w /\
  backend (after (run env (handleVisibilityChange hidden) w)) = backend w /\
  pending (run env (handleVisibilityChange hidden) w) = [] /\
  length (console (after (run env (handleVisibilityChange hidden) w)))
    = Datatypes.S (length (console w)).
Proof. destruct hidden; cbn; rewrite ?length_app; simpl; repeat split; lia. Qed.

End Hook.

(** The monitoring store's own [stopListening] and [startListening] behave
    alike: a rejected [unlisten] leaves [globalUnlistenFn] set, and a rejected
    [listen] is logged and swallowed. *)
Section MonitoringListener.
Import DbMonitoringStore.

Lemma store_stop_keeps_handle_on_failure env w id e :
  globalUnlistenFn (store w) = Some id ->
  refuses env (length (journal (backend w))) (unlisten "database-changed" id) = Some e ->
  outcome (run env stopListening w) = inr tt /\
  globalUnlistenFn (store (after (run env stopListening w))) = Some id.
Proof.
  intros Hf He. destruct w as [[en fn ls dl] b con]. cbn in Hf, He. subst. cbn. unfold serve.
  rewrite He. cbn. done.
Qed.

Lemma store_start_swallows_failure env w :
  last_request (after (run env startListening w)) = Some (listen "database-changed", false) ->
  outcome (run env startListening w) = inr tt /\
  (globalUnlistenFn (store (after (run env startListening w))) = None \/
   globalUnlistenFn (store (after (run env startListening w))) = globalUnlistenFn (store w)).
Proof.
  destruct w as [[en [id|] ls dl] b con]; unfold last_request; backend_cases env;
    rewrite ?last_snoc; intros H; try discriminate H; auto.
Qed.

End MonitoringListener.

(** ** C10: password validation *)

Section Password.
Import SimpleEncryption.

(** C10: [validatePassword] is a total function (it has no [throw]); it
    answers [isValid = true] exactly for passwords of 4 to 50 UTF-16 code
    units, and every [isValid = false] answer carries a non-empty message. *)
Theorem validatePassword_accepts_4_to_50 (password : JsString) :
  (isValid (validatePassword password) = true <-> 4 <= length password <= 50) /\
  (isValid (validatePassword password) = false ->
   exists m, message (validatePassword password) = Some m /\ m <> ""%string).
Proof.
  unfold validatePassword.
  destruct (Nat.ltb_spec (length password) 4); [| destruct (Nat.ltb_spec 50 (length password))];
    simpl; (split; [split; [discriminate || lia | lia || reflexivity] |]);
    try discriminate; intros _; eexists; (split; [reflexivity | discriminate]).
Qed.

End Password.

(** ** [xorEncrypt]: what the encrypted file holds *)

Section Encryption.
Import Stdlib.Strings.Ascii SimpleEncryption.

Lemma list_ind2 {A} (P : list A -> Prop) :
  P [] -> (forall a, P [a]) ->
  (forall a b l, P l -> P (b :: l) -> P (a :: b :: l)) -> forall l, P l.
Proof.
  intros H0 H1 H2 l.
  assert (P l /\ forall a, P (a :: l)) as [H _]; [| exact H].
  induction l as [|x l [IH0 IH1]]; [auto |].
  split; [apply IH1 | intros a; apply H2; [exact IH0 | apply IH1]].
Qed.

Lemma list_ind3 {A} (P : list A -> Prop) :
  P [] -> (forall a, P [a]) -> (forall a b, P [a; b]) ->
  (forall a b c l, P l -> P (a :: b :: c :: l)) -> forall l, P l.
Proof.
  intros H0 H1 H2 H3 l.
  assert (P l /\ (forall a, P (a :: l)) /\ (forall a b, P (a :: b :: l))) as [H _].
  { induction l as [|x l (IH0 & IH1 & IH2)]; [auto |].
    split; [apply IH1 | split; [intros a; apply IH2 | intros a b; apply H3, IH0]]. }
  exact H.
Qed.

(** *** UTF-8 *)

Lemma utf8_of_code_point_bytes c : (c < 0x110000)%N -> bytes (utf8_of_code_point c).
Proof.
  intros Hc. unfold utf8_of_code_point, bytes.
  destruct (N.ltb_spec c 0x80); [| destruct (N.ltb_spec c 0x800);
    [| destruct (N.ltb_spec c 0x10000)]]; repeat constructor; euclid.
Qed.

Lemma utf8_of_code_point_length c :
  1 <= length (utf8_of_code_point c) <= 4 /\
  ((c < 0x10000)%N -> length (utf8_of_code_point c) <= 3).
Proof.
  unfold utf8_of_code_point.
  destruct (N.ltb_spec c 0x80); [| destruct (N.ltb_spec c 0x800);
    [| destruct (N.ltb_spec c 0x10000)]]; simpl; repeat split; try lia.
Qed.

Lemma pair_code_point_range u v :
  is_high_surrogate u = true -> is_low_surrogate v = true ->
  (0x10000 <= pair_code_point u v < 0x110000)%N.
Proof.
  unfold is_high_surrogate, is_low_surrogate, pair_code_point.
  intros [H1 H2]%andb_prop [H3 H4]%andb_prop.
  apply N.leb_le in H1, H3. apply N.ltb_lt in H2, H4. lia.
Qed.

Lemma utf8_of_pair_length u v :
  is_high_surrogate u = true -> is_low_surrogate v = true ->
  length (utf8_of_code_point (pair_code_point u v)) = 4.
Proof.
  intros Hh Hlo. pose proof (pair_code_point_range u v Hh Hlo) as Hp.
  unfold utf8_of_code_point.
  destruct (N.ltb_spec (pair_code_point u v) 0x80); [lia |].
  destruct (N.ltb_spec (pair_code_point u v) 0x800); [lia |].
  destruct (N.ltb_spec (pair_code_point u v) 0x10000); [lia | reflexivity].
Qed.

Lemma replacement_bytes : bytes replacement.
Proof. repeat constructor. Qed.

Lemma encode_pair u v l :
  is_high_surrogate u = true -> is_low_surrogate v = true ->
  encode (u :: v :: l) = utf8_of_code_point (pair_code_point u v) ++ encode l.
Proof. intros Hu Hv. cbn [encode]. rewrite Hu, Hv. reflexivity. Qed.

Lemma encode_lone_high u v l :
  is_high_surrogate u = true -> is_low_surrogate v = false ->
  encode (u :: v :: l) = replacement ++ encode (v :: l).
Proof.
  intros Hu Hv. change (encode (u :: v :: l)) with
    (if is_high_surrogate u
     then if is_low_surrogate v
          then utf8_of_code_point (pair_code_point u v) ++ encode l
          else replacement ++ encode (v :: l)
     else if is_low_surrogate u then replacement ++ encode (v :: l)
          else utf8_of_code_point u ++ encode (v :: l)).
  rewrite Hu, Hv. reflexivity.
Qed.

Lemma encode_low u rest :
  is_high_surrogate u = false -> is_low_surrogate u = true ->
  encode (u :: rest) = replacement ++ encode rest.
Proof. intros Hu Hl. destruct rest; cbn [encode]; rewrite Hu, Hl; reflexivity. Qed.

Lemma encode_plain u rest :
  is_high_surrogate u = false -> is_low_surrogate u = false ->
  encode (u :: rest) = utf8_of_code_point u ++ encode rest.
Proof. intros Hu Hl. destruct rest; cbn [encode]; rewrite Hu, Hl; reflexivity. Qed.

Lemma encode_last_high u : is_high_surrogate u = true -> encode [u] = replacement.
Proof. intros Hu. cbn [encode]. rewrite Hu. reflexivity. Qed.

(** The five ways [encode] reads the head of a string. *)
Lemma encode_cases u rest :
  (is_high_surrogate u = true /\ rest = [] /\ encode (u :: rest) = replacement) \/
  (is_high_surrogate u = true /\ exists v l, rest = v :: l /\ is_low_surrogate v = true /\
     encode (u :: rest) = utf8_of_code_point (pair_code_point u v) ++ encode l) \/
  (is_high_surrogate u = true /\ exists v l, rest = v :: l /\ is_low_surrogate v = false /\
     encode (u :: rest) = replacement ++ encode rest) \/
  (is_high_surrogate u = false /\ is_low_surrogate u = true /\
     encode (u :: rest) = replacement ++ encode rest) \/
  (is_high_surrogate u = false /\ is_low_surrogate u = false /\
     encode (u :: rest) = utf8_of_code_point u ++ encode rest).
Proof.
  destruct (is_high_surrogate u) eqn:Hu.
  - destruct rest as [|v l]; [left; auto using encode_last_high |].
    destruct (is_low_surrogate v) eqn:Hv.
    + right; left. split; [done |]. exists v, l. auto using encode_pair.
    + right; right; left. split; [done |]. exists v, l. auto using encode_lone_high.
  - destruct (is_low_surrogate u) eqn:Hl.
    + right; right; right; left. auto using encode_low.
    + right; right; right; right. auto using encode_plain.
Qed.

Lemma encode_bytes s : well_formed s -> bytes (encode s).
Proof.
  unfold well_formed, bytes.
  induction s as [| u | u v l IHl IHvl] using list_ind2; intros Hs.
  - constructor.
  - apply Forall_cons in Hs as [Hu _].
    destruct (encode_cases u []) as
      [(_ & _ & ->) | [(_ & v & l & ? & _) | [(_ & v & l & ? & _) | [(_ & _ & ->) | (_ & _ & ->)]]]];
      try discriminate; rewrite ?app_nil_r; try apply replacement_bytes.
    apply utf8_of_code_point_bytes. lia.
  - pose proof Hs as Hs'. apply Forall_cons in Hs' as [Hu Hvl].
    pose proof Hvl as Hvl'. apply Forall_cons in Hvl' as [Hv Hl].
    destruct (encode_cases u (v :: l)) as
      [(_ & ? & _) | [(Hh & v' & l' & [= <- <-] & Hlo & ->) |
        [(_ & v' & l' & _ & _ & ->) | [(_ & _ & ->) | (_ & _ & ->)]]]];
      try discriminate; apply Forall_app; (split; [| by auto]);
      try apply replacement_bytes.
    + apply utf8_of_code_point_bytes. by apply pair_code_point_range.
    + apply utf8_of_code_point_bytes. lia.
Qed.

Lemma encode_length_lower s : length s <= length (encode s).
Proof.
  induction s as [| u | u v l IHl IHvl] using list_ind2.
  - simpl. lia.
  - pose proof (utf8_of_code_point_length u) as [Hr _].
    destruct (encode_cases u []) as
      [(_ & _ & ->) | [(_ & v & l & ? & _) | [(_ & v & l & ? & _) | [(_ & _ & ->) | (_ & _ & ->)]]]];
      try discriminate; rewrite ?app_nil_r; simpl; lia.
  - pose proof (utf8_of_code_point_length u) as [Hr _].
    destruct (encode_cases u (v :: l)) as
      [(_ & ? & _) | [(Hh & v' & l' & [= <- <-] & Hlo & ->) |
        [(_ & v' & l' & _ & _ & ->) | [(_ & _ & ->) | (_ & _ & ->)]]]];
      try discriminate; rewrite length_app; [rewrite utf8_of_pair_length by done | ..];
      simpl in *; lia.
Qed.

Lemma encode_length_upper s : well_formed s -> length (encode s) <= 3 * length s.
Proof.
  unfold well_formed.
  induction s as [| u | u v l IHl IHvl] using list_ind2; intros Hs.
  - simpl. lia.
  - apply Forall_cons in Hs as [Hu _].
    pose proof (utf8_of_code_point_length u) as [_ Hw]. specialize (Hw Hu).
    destruct (encode_cases u []) as
      [(_ & _ & ->) | [(_ & v & l & ? & _) | [(_ & v & l & ? & _) | [(_ & _ & ->) | (_ & _ & ->)]]]];
      try discriminate; rewrite ?app_nil_r; simpl; lia.
  - pose proof Hs as Hs'. apply Forall_cons in Hs' as [Hu Hvl].
    pose proof Hvl as Hvl'. apply Forall_cons in Hvl' as [Hv Hl].
    pose proof (utf8_of_code_point_length u) as [_ Hw]. specialize (Hw Hu).
    specialize (IHl Hl). specialize (IHvl Hvl).
    destruct (encode_cases u (v :: l)) as
      [(_ & ? & _) | [(Hh & v' & l' & [= <- <-] & Hlo & ->) |
        [(_ & v' & l' & _ & _ & ->) | [(_ & _ & ->) | (_ & _ & ->)]]]];
      try discriminate; rewrite length_app; [rewrite utf8_of_pair_length by done | ..];
      simpl in *; lia.
Qed.

(** *** Base64 *)

Lemma sextet_inverse (i : N) :
  (i < 64)%N -> unsextet (sextet i) = Some i /\ Ascii.eqb (sextet i) "=" = false.
Proof.
  intros Hi.
  assert (forallb (fun n => bool_decide (unsextet (sextet (N.of_nat n)) = Some (N.of_nat n))
                            && negb (Ascii.eqb (sextet (N.of_nat n)) "="))
                  (seq 0 64) = true) as H by (vm_compute; reflexivity).
  rewrite forallb_forall in H.
  assert (In (N.to_nat i) (seq 0 64)) as Hin by (apply in_seq; lia).
  apply H in Hin. rewrite N2Nat.id in Hin. apply andb_prop in Hin as [H1 H2].
  split; [by apply bool_decide_eq_true in H1 | by apply negb_true_iff in H2].
Qed.

Lemma base64_inverse bs : bytes bs -> unbase64 (base64 bs) = Some bs.
Proof.
  induction bs as [| a | a b | a b c l IH] using list_ind3; intros Hb.
  - reflexivity.
  - apply Forall_cons in Hb as [Ha _].
    destruct (sextet_inverse (a / 4)) as [E1 _]; [euclid |].
    destruct (sextet_inverse ((a mod 4) * 16)) as [E2 _]; [euclid |].
    cbn [base64 unbase64]. rewrite E1, E2. cbn. do 2 f_equal. euclid.
  - apply Forall_cons in Hb as [Ha [Hb _]%Forall_cons].
    destruct (sextet_inverse (a / 4)) as [E1 _]; [euclid |].
    destruct (sextet_inverse ((a mod 4) * 16 + b / 16)) as [E2 _]; [euclid |].
    destruct (sextet_inverse ((b mod 16) * 4)) as [E3 N3]; [euclid |].
    cbn [base64 unbase64]. rewrite E1, E2. cbn [mbind option_bind]. rewrite N3, E3. cbn.
    f_equal. f_equal; [| f_equal]; euclid.
  - apply Forall_cons in Hb as [Ha [Hb [Hc Hl]%Forall_cons]%Forall_cons].
    destruct (sextet_inverse (a / 4)) as [E1 _]; [euclid |].
    destruct (sextet_inverse ((a mod 4) * 16 + b / 16)) as [E2 _]; [euclid |].
    destruct (sextet_inverse ((b mod 16) * 4 + c / 64)) as [E3 N3]; [euclid |].
    destruct (sextet_inverse (c mod 64)) as [E4 N4]; [euclid |].
    cbn [base64 unbase64]. rewrite E1, E2. cbn [mbind option_bind]. rewrite N3, E3.
    cbn [mbind option_bind]. rewrite N4, E4. cbn [mbind option_bind]. rewrite (IH Hl).
    cbn [mbind option_bind]. f_equal. f_equal; [| f_equal; [| f_equal]]; euclid.
Qed.

Lemma base64_length bs : String.length (base64 bs) = 4 * ((length bs + 2) / 3).
Proof.
  induction bs as [| a | a b | a b c l IH] using list_ind3; try reflexivity.
  cbn [base64 String.length length]. rewrite IH.
  replace (S (S (S (length l))) + 2) with (length l + 2 + 1 * 3) by lia.
  rewrite Nat.div_add by lia. lia.
Qed.

Lemma btoa_bytes bs : bytes bs -> btoa bs = Some (base64 bs).
Proof.
  intros Hb. unfold btoa.
  assert (forallb (fun c => c <? 256)%N bs = true) as ->; [| done].
  apply forallb_forall. intros x Hx%list_elem_of_In.
  apply N.ltb_lt. by apply (proj1 (Forall_forall _ _) Hb).
Qed.

Lemma fromCharCode_bytes bs : bytes bs -> fromCharCode bs = bs.
Proof.
  intros Hb. unfold fromCharCode. induction Hb as [| b bs Hb _ IH]; [done |].
  simpl. rewrite IH. f_equal. apply N.mod_small. lia.
Qed.

(** *** The XOR loop *)

Lemma lxor_byte a b : (a < 256)%N -> (b < 256)%N -> (N.lxor a b < 256)%N.
Proof.
  intros Ha Hb. destruct (N.eq_dec (N.lxor a b) 0%N) as [-> | Hn]; [lia |].
  apply (N.log2_lt_pow2 _ 8%N); [lia |].
  eapply N.le_lt_trans; [apply N.log2_lxor |].
  apply N.max_lub_lt.
  - destruct (N.eq_dec a 0%N) as [-> |]; [by vm_compute |]. apply N.log2_lt_pow2; lia.
  - destruct (N.eq_dec b 0%N) as [-> |]; [by vm_compute |]. apply N.log2_lt_pow2; lia.
Qed.

Lemma keyByte_byte k i : bytes k -> (keyByte k i < 256)%N.
Proof.
  intros Hk. unfold keyByte.
  destruct (k !! (i `mod` length k)) as [b|] eqn:E; simpl; [| lia].
  by apply (Forall_lookup_1 _ _ _ _ Hk E).
Qed.

Lemma xorBytes_length t k : length (xorBytes t k) = length t.
Proof. apply length_imap. Qed.

Lemma xorBytes_bytes t k : bytes (xorBytes t k).
Proof.
  apply Forall_lookup_2. intros i x. unfold xorBytes. rewrite list_lookup_imap.
  destruct (t !! i); simpl; [| done]. intros [= <-]. apply N.mod_lt. lia.
Qed.

Lemma xorBytes_involutive t k : bytes t -> bytes k -> xorBytes (xorBytes t k) k = t.
Proof.
  intros Ht Hk. apply list_eq. intros i. unfold xorBytes. rewrite !list_lookup_imap.
  destruct (t !! i) as [x|] eqn:E; simpl; [| done]. f_equal.
  pose proof (Forall_lookup_1 _ _ _ _ Ht E) as Hx. simpl in Hx.
  pose proof (keyByte_byte k i Hk) as Hb.
  rewrite (N.mod_small (N.lxor x _)) by by apply lxor_byte.
  rewrite N.lxor_assoc, N.lxor_nilpotent, N.lxor_0_r. by apply N.mod_small.
Qed.

Lemma xorBytes_empty_key t : bytes t -> xorBytes t [] = t.
Proof.
  intros Ht. apply list_eq. intros i. unfold xorBytes. rewrite list_lookup_imap.
  destruct (t !! i) as [x|] eqn:E; simpl; [| done]. f_equal.
  pose proof (Forall_lookup_1 _ _ _ _ Ht E) as Hx. simpl in Hx.
  unfold keyByte. rewrite lookup_nil. simpl. rewrite N.lxor_0_r. by apply N.mod_small.
Qed.

(** [btoa] never rejects what the loop hands it: [xorEncrypt] throws only
    through the argument bound. *)
Lemma xorEncrypt_unfold limit text key :
  xorEncrypt limit text key =
    if limit <? length (encode text) then None
    else Some (base64 (xorBytes (encode text) (encode key))).
Proof.
  unfold xorEncrypt. cbv zeta. rewrite xorBytes_length.
  destruct (limit <? length (encode text)); [done |].
  rewrite fromCharCode_bytes by apply xorBytes_bytes. apply btoa_bytes, xorBytes_bytes.
Qed.

(** What [xorEncrypt] returns can be read back with the same key: decoding
    the base64 text and XOR-ing with the key's bytes again gives the UTF-8
    bytes of the text. *)
Theorem xorEncrypt_round_trip limit text key :
  well_formed text -> well_formed key ->
  length (encode text) <= limit ->
  exists out, xorEncrypt limit text key = Some out /\
              xorDecrypt out key = Some (encode text).
Proof.
  intros Ht Hk Hl. rewrite xorEncrypt_unfold.
  destruct (Nat.ltb_spec limit (length (encode text))); [lia |].
  eexists. split; [reflexivity |]. unfold xorDecrypt.
  rewrite base64_inverse by apply xorBytes_bytes. simpl.
  by rewrite xorBytes_involutive by by apply encode_bytes.
Qed.

Lemma xorEncrypt_round_trip_witness :
  exists out, xorEncrypt 1000 [0x68; 0x20AC; 0xD83D; 0xDE00]%N [0x6B; 0x65; 0x79; 0x21]%N
              = Some out /\
              xorDecrypt out [0x6B; 0x65; 0x79; 0x21]%N
              = Some (encode [0x68; 0x20AC; 0xD83D; 0xDE00]%N).
Proof.
  apply (xorEncrypt_round_trip 1000 [0x68; 0x20AC; 0xD83D; 0xDE00]%N
           [0x6B; 0x65; 0x79; 0x21]%N).
  - repeat constructor.
  - repeat constructor.
  - vm_compute. lia.
Defined.

(** [xorEncrypt] throws exactly when the UTF-8 text is longer than the
    engine's argument bound; otherwise its result has four characters for
    every three bytes of the UTF-8 text, rounded up, whatever the key, and the
    UTF-8 text has at least as many bytes as the string has code units. *)
Theorem xorEncrypt_output_length limit text key :
  (xorEncrypt limit text key = None <-> limit < length (encode text)) /\
  (forall out, xorEncrypt limit text key = Some out ->
     String.length out = 4 * ((length (encode text) + 2) / 3) /\
     length text <= length (encode text)).
Proof.
  rewrite xorEncrypt_unfold.
  destruct (Nat.ltb_spec limit (length (encode text))); split.
  - split; [done | done].
  - discriminate.
  - split; [discriminate | intros; lia].
  - intros out [= <-]. rewrite base64_length, xorBytes_length.
    split; [done | apply encode_length_lower].
Qed.

(** With an empty key nothing is encrypted: the result is the base64 text
    of the plain UTF-8 bytes. *)
Theorem xorEncrypt_empty_key limit text :
  well_formed text -> length (encode text) <= limit ->
  xorEncrypt limit text [] = Some (base64 (encode text)).
Proof.
  intros Ht Hl. rewrite xorEncrypt_unfold.
  destruct (Nat.ltb_spec limit (length (encode text))); [lia |].
  by rewrite xorBytes_empty_key by by apply encode_bytes.
Qed.

Lemma xorEncrypt_empty_key_witness :
  xorEncrypt 1000 [0x4D; 0x61; 0x6E]%N [] = Some "TWFu"%string.
Proof.
  apply (xorEncrypt_empty_key 1000 [0x4D; 0x61; 0x6E]%N).
  - repeat constructor.
  - vm_compute. lia.
Defined.

(** A password [validatePassword] accepts gives [xorEncrypt] between 4 and
    150 key bytes, so every byte of the text is XOR-ed with a byte of the
    key: the index [i % keyBytes.length] always finds one. *)
Theorem valid_password_keys_every_byte (password : JsString) :
  well_formed password ->
  isValid (validatePassword password) = true ->
  4 <= length (encode password) <= 150 /\
  forall i, is_Some (encode password !! (i `mod` length (encode password))).
Proof.
  intros Hw Hv.
  assert (4 <= length password <= 50) as Hlen.
  { unfold validatePassword in Hv.
    destruct (Nat.ltb_spec (length password) 4); [discriminate |].
    destruct (Nat.ltb_spec 50 (length password)); [discriminate | lia]. }
  pose proof (encode_length_lower password) as Hlo.
  pose proof (encode_length_upper password Hw) as Hup.
  split; [lia |]. intros i. apply lookup_lt_is_Some.
  apply Nat.mod_upper_bound. lia.
Qed.

Lemma valid_password_witness :
  4 <= length (encode [0x6B; 0x65; 0x79; 0x21]%N) <= 150.
Proof.
  apply (valid_password_keys_every_byte [0x6B; 0x65; 0x79; 0x21]%N).
  - repeat constructor.
  - reflexivity.
Defined.

End Encryption.

(** ** The monitoring store: how its actions compose *)

Section StoreComposition.
Import DbMonitoringStore.

Lemma position_fresh l ls more :
  fn l ∉ map fn more -> position l (ls ++ l :: more) = Some (length ls).
Proof.
  intros Hm. apply position_absent in Hm.
  induction ls as [|x xs IH]; simpl.
  - rewrite Hm. by destruct (decide (fn l = fn l)).
  - by rewrite IH.
Qed.

Lemma off_own l ls more : fn l ∉ map fn more -> off l (ls ++ l :: more) = ls ++ more.
Proof.
  intros Hm. unfold off. rewrite (position_fresh l ls more Hm).
  induction ls as [|x xs IH]; [reflexivity |]. simpl. by rewrite IH.
Qed.

(** A consumer that registers a callback, after which others register
    callbacks of other functions, and then calls the function [addListener]
    returned, removes exactly its own registration: the emitter holds what
    it held before, followed by the later registrations in their order. *)
Theorem unsubscribe_removes_own_registration env l (more : list Listener) w :
  fn l ∉ map fn more ->
  outcome (run env (u ← addListener l; subscribe_all more;; unsubscribe u) w) = inr tt /\
  emitter (after (run env (u ← addListener l; subscribe_all more;; unsubscribe u) w))
    = emitter w ++ more.
Proof.
  intros Hm. unfold mbind, async_bind, emitter.
  rewrite run_bind. cbn -[subscribe_all off]. rewrite run_bind, run_subscribe_all.
  cbn -[off]. unfold on. split; [done |]. rewrite <- app_assoc. exact (off_own l _ more Hm).
Qed.

Lemma unsubscribe_removes_own_witness :
  emitter (after (run obliging
                    (u ← addListener (steady 1); subscribe_all [steady 2; steady 3];;
                     unsubscribe u) blank))
    = [steady 2; steady 3].
Proof.
  apply (unsubscribe_removes_own_registration obliging (steady 1) [steady 2; steady 3] blank).
  apply (bool_decide_unpack _). reflexivity.
Defined.

(** [setDbMonitoringEnabled(false)] calls [stopListening] without
    awaiting it: when the save is accepted the promise resolves with the
    flag off while the listener's handle is still stored and the stop is
    left pending; the handle is cleared, and the registration removed, only
    when the pending stop goes on and the backend accepts its unlisten. *)
Theorem disabling_does_not_wait env w id :
  globalUnlistenFn (store w) = Some id ->
  refuses env (length (journal (backend w))) (invoke (set_db_monitoring_enabled false)) = None ->
  outcome (run env (setDbMonitoringEnabled false) w) = inr tt /\
  dbMonitoringEnabled (store (after (run env (setDbMonitoringEnabled false) w))) = false /\
  globalUnlistenFn (store (after (run env (setDbMonitoringEnabled false) w))) = Some id /\
  exists t, pending (run env (setDbMonitoringEnabled false) w) = [t] /\
    settled t = false /\
    forall env',
      refuses env' (S (length (journal (backend w)))) (unlisten "database-changed" id) = None ->
      globalUnlistenFn
        (store (resume env' t (after (run env (setDbMonitoringEnabled false) w))).1.2) = None /\
      id ∉ registered
        (backend (resume env' t (after (run env (setDbMonitoringEnabled false) w))).1.2).
Proof.
  intros Hf He. destruct w as [[en fn ls dl] b con]. cbn in Hf, He. subst.
  cbn. unfold serve. rewrite He. cbn.
  repeat split; try done. eexists. split; [reflexivity |]. split; [reflexivity |].
  intros env' He'. cbn. unfold serve. cbn. rewrite length_app. cbn.
  rewrite Nat.add_1_r, He'. cbn. split; [done |].
  intros [H _]%list_elem_of_filter. done.
Qed.

Lemma disabling_witness :
  dbMonitoringEnabled (store (after (run obliging (setDbMonitoringEnabled false) listening)))
    = false /\
  globalUnlistenFn (store (after (run obliging (setDbMonitoringEnabled false) listening)))
    = Some 0.
Proof.
  destruct (disabling_does_not_wait obliging listening 0 eq_refl eq_refl)
    as (_ & Hd & Hf & _).
  split; [exact Hd | exact Hf].
Defined.

(** Against a backend that rejects nothing, [toggleDbMonitoring]
    stores and persists the negation of the stored flag (not of the
    persisted one), so two toggles in turn leave both equal to the flag the
    store started with. *)
Theorem toggle_twice_restores_flag env w :
  peaceful env ->
  dbMonitoringEnabled (store (after (run env toggleDbMonitoring w)))
    = negb (dbMonitoringEnabled (store w)) /\
  persisted_flag (backend (after (run env toggleDbMonitoring w)))
    = negb (dbMonitoringEnabled (store w)) /\
  dbMonitoringEnabled
    (store (after (run env toggleDbMonitoring (after (run env toggleDbMonitoring w)))))
    = dbMonitoringEnabled (store w) /\
  persisted_flag
    (backend (after (run env toggleDbMonitoring (after (run env toggleDbMonitoring w)))))
    = dbMonitoringEnabled (store w).
Proof.
  intros Hp. destruct w as [[[] [id|] ls dl] b con]; cbn; unfold serve; rewrite !Hp; cbn;
    unfold serve; rewrite ?Hp; cbn; done.
Qed.

Lemma toggle_twice_witness :
  dbMonitoringEnabled (store (after (run obliging toggleDbMonitoring blank))) = false /\
  dbMonitoringEnabled
    (store (after (run obliging toggleDbMonitoring
                     (after (run obliging toggleDbMonitoring blank))))) = true.
Proof.
  destruct (toggle_twice_restores_flag obliging blank (fun _ _ => eq_refl))
    as (H1 & _ & H2 & _).
  split; [exact H1 | exact H2].
Defined.

(** The store's [startListening] always resolves.  When the backend
    accepts the registration it stores the new handle and resolves with the
    request that arms the watcher still pending: that request is made
    without [await], and whether the backend accepts or rejects it the
    store is left as it was.  When the registration is rejected the watcher
    is never asked for. *)
Theorem store_start_arms_after_registering env w :
  outcome (run env startListening w) = inr tt /\
  match last_request (after (run env startListening w)) with
  | Some (listen _, true) =>
      globalUnlistenFn (store (after (run env startListening w)))
        = Some (next_event_id (backend w)) /\
      exists t, pending (run env startListening w) = [t] /\
        forall env',
          store (resume env' t (after (run env startListening w))).1.2
            = store (after (run env startListening w)) /\
          exists ok,
            last_request (resume env' t (after (run env startListening w))).1.2
              = Some (invoke start_database_monitoring, ok) /\
            settled (resume env' t (after (run env startListening w))).1.1 = true
  | _ =>
      pending (run env startListening w) = [] /\
      requests_of (invoke start_database_monitoring) (after (run env startListening w))
        = requests_of (invoke start_database_monitoring) w
  end.
Proof.
  destruct w as [[en [id|] ls dl] b con]; unfold last_request, requests_of;
    backend_cases env; rewrite ?last_snoc, ?filter_app; cbn; rewrite ?app_nil_r.
  all: split; [done |]; try (split; done).
  all: split; [done |]; eexists; split; [reflexivity |].
  all: intros env'; cbn; unfold serve;
    match goal with |- context [refuses env' ?n ?r] => destruct (refuses env' n r) end;
    cbn; rewrite ?last_snoc; eauto.
Qed.

(** [loadSettings] starts the listener exactly when the persisted
    flag is on, and does not wait for it: with the flag on it resolves with
    one call pending, which, against a backend that rejects nothing, ends
    with a new registration whose handle is stored; with the flag off
    nothing is pending and no registration is made. *)
Theorem loadSettings_starts_listener_when_enabled env w :
  refuses env (length (journal (backend w))) (invoke is_db_monitoring_enabled) = None ->
  globalUnlistenFn (store w) = None ->
  if persisted_flag (backend w)
  then exists t, pending (run env loadSettings w) = [t] /\
         forall env', peaceful env' ->
           globalUnlistenFn (store (after (run env' t (after (run env loadSettings w)))))
             = Some (next_event_id (backend w)) /\
           registered (backend (after (run env' t (after (run env loadSettings w)))))
             = registered (backend w) ++ [next_event_id (backend w)]
  else pending (run env loadSettings w) = [] /\
       registered (backend (after (run env loadSettings w))) = registered (backend w) /\
       globalUnlistenFn (store (after (run env loadSettings w))) = None.
Proof.
  intros He Hf. destruct w as [[en fn ls dl] [reg nxt flag armed jr] con].
  cbn in He, Hf. subst. cbn. unfold serve. cbn. rewrite He. cbn.
  destruct flag; cbn; [| done].
  eexists. split; [reflexivity |]. intros env' Hp.
  cbn. unfold serve. rewrite !Hp. cbn. done.
Qed.

Lemma loadSettings_starts_listener_witness :
  exists t, pending (run obliging loadSettings blank) = [t] /\
    forall env', peaceful env' ->
      globalUnlistenFn (store (after (run env' t (after (run obliging loadSettings blank)))))
        = Some 0 /\
      registered (backend (after (run env' t (after (run obliging loadSettings blank)))))
        = [0].
Proof.
  exact (loadSettings_starts_listener_when_enabled obliging blank eq_refl eq_refl).
Defined.

End StoreComposition.

(** ** The settings dialog: a successful save *)

Section DialogSuccess.
Import BusinessSettingsDialog.

(** When the backend accepts the save, the dialog's switch shows the
    new flag and the backend's reply as a success message, and the timer it
    sets clears that message and nothing else.  (The failure branch sets no
    timer, so an error message stays.) *)
Theorem handleDbMonitoringToggle_success env (w : World DialogState) enabled :
  refuses env (length (journal (backend w))) (invoke (save_db_monitoring_state enabled))
    = None ->
  outcome (run env (handleDbMonitoringToggle enabled) w) = inr tt /\
  isDbMonitoringEnabled (store (after (run env (handleDbMonitoringToggle enabled) w)))
    = enabled /\
  persisted_flag (backend (after (run env (handleDbMonitoringToggle enabled) w))) = enabled /\
  message (store (after (run env (handleDbMonitoringToggle enabled) w))) = ack env enabled /\
  messageType (store (after (run env (handleDbMonitoringToggle enabled) w))) = success /\
  exists t, pending (run env (handleDbMonitoringToggle enabled) w) = [t] /\
    forall env',
      message (store (after (run env' t (after (run env (handleDbMonitoringToggle enabled) w)))))
        = ""%string /\
      isDbMonitoringEnabled
        (store (after (run env' t (after (run env (handleDbMonitoringToggle enabled) w)))))
        = enabled.
Proof.
  intros He. cbn. unfold serve. rewrite He. cbn.
  repeat split; try done. eexists. split; [reflexivity |]. intros env'. cbn. done.
Qed.

Lemma handleDbMonitoringToggle_success_witness :
  isDbMonitoringEnabled (store (after (run obliging (handleDbMonitoringToggle false) opened)))
    = false /\
  message (store (after (run obliging (handleDbMonitoringToggle false) opened))) = "saved"%string.
Proof.
  destruct (handleDbMonitoringToggle_success obliging opened false eq_refl)
    as (_ & Hf & _ & Hm & _).
  split; [exact Hf | exact Hm].
Defined.

End DialogSuccess.

(** ** The listener hook: round trips *)

Lemma filter_out_absent (id : EventId) (reg : list EventId) :
  id ∉ reg -> filter (fun i => i ≠ id) reg = reg.
Proof.
  induction reg as [|x reg IH]; [done |].
  intros [Hx Hreg]%not_elem_of_cons. rewrite filter_cons_True by congruence.
  by rewrite IH.
Qed.

Section HookRoundTrips.
Import DatabaseStore DatabaseListener.

(** Against a backend that rejects nothing, [restartListening] on a
    hook whose one registration is live replaces it: the old registration
    is removed, the new one is the only one live and its handle is the one
    stored. *)
Theorem restart_replaces_registration env w id :
  peaceful env ->
  unlistenFn (store w) = Some id -> registered (backend w) = [id] ->
  outcome (run env restartListening w) = inr tt /\
  unlistenFn (store (after (run env restartListening w))) = Some (next_event_id (backend w)) /\
  registered (backend (after (run env restartListening w))) = [next_event_id (backend w)] /\
  isListening (store (after (run env restartListening w))) = true.
Proof.
  intros Hp Hf Hr. destruct w as [[isL auto fn] [reg nxt flag armed jr] con].
  cbn in Hf, Hr. subst.
  cbn; unfold serve; rewrite !Hp; cbn; unfold serve; rewrite ?Hp; cbn.
  case_decide; [congruence |]. done.
Qed.

Lemma restart_replaces_witness :
  unlistenFn (store (after (run obliging restartListening subscribed))) = Some 1 /\
  registered (backend (after (run obliging restartListening subscribed))) = [1].
Proof.
  destruct (restart_replaces_registration obliging subscribed 0 (fun _ _ => eq_refl)
              eq_refl eq_refl) as (_ & Hf & Hr & _).
  split; [exact Hf | exact Hr].
Defined.

(** Against a backend that rejects nothing, [startListening] from a
    hook with no handle adds one registration, and a [stopListening] after
    it removes that registration again: the live registrations are those
    from before the start, the handle is cleared and the flag is off. *)
Theorem start_then_stop_round_trip env w :
  peaceful env ->
  unlistenFn (store w) = None ->
  next_event_id (backend w) ∉ registered (backend w) ->
  is_Some (unlistenFn (store (after (run env startListening w)))) /\
  live (after (run env startListening w)) = S (live w) /\
  unlistenFn (store (after (run env stopListening (after (run env startListening w))))) = None /\
  isListening (store (after (run env stopListening (after (run env startListening w))))) = false /\
  registered (backend (after (run env stopListening (after (run env startListening w)))))
    = registered (backend w).
Proof.
  intros Hp Hf Hfresh. destruct w as [[isL auto fn] [reg nxt flag armed jr] con].
  cbn in Hf, Hfresh. subst. unfold live.
  cbn; unfold serve; rewrite !Hp; cbn; unfold serve; rewrite ?Hp; cbn.
  rewrite length_app, filter_app. cbn. case_decide; [congruence |].
  rewrite app_nil_r. repeat split; try done; try (simpl; lia).
  by apply filter_out_absent.
Qed.

Lemma start_then_stop_witness :
  live (after (run obliging startListening idle)) = 1 /\
  registered (backend (after (run obliging stopListening
                                (after (run obliging startListening idle))))) = [].
Proof.
  destruct (start_then_stop_round_trip obliging idle (fun _ _ => eq_refl) eq_refl)
    as (_ & Hl & _ & _ & Hr).
  - apply (bool_decide_unpack _). reflexivity.
  - split; [exact Hl | exact Hr].
Defined.

End HookRoundTrips.

(** ** [useDatabaseListener.ts]: the event handler and the first effect *)

Section HookEvents.
Import DatabaseStore DatabaseListener UseDatabaseListener.

(** The hook's handler first makes its announcements and then suspends
    for the delay, before any part of the refresh has run.  When it goes on
    it calls the refresh function exactly once, whether or not the event
    carries a diff; it has no [try]/[catch], so it resolves or rejects as the
    refresh does, store, backend and pending calls are those the refresh
    leaves, and its closing line is printed after the refresh's own output,
    and only when the refresh resolved. *)
Theorem handler_refreshes_once {S} env (refresh : Async S unit) payload (w : World S) :
  (exists t,
     advance (handleDatabaseChange refresh payload) w = (t, announced payload w, []) /\
     settled t = false /\
     run env t (announced payload w) = run env (handleDatabaseChange refresh payload) w) /\
  outcome (run env (handleDatabaseChange refresh payload) w)
    = outcome (run env refresh (announced payload w)) /\
  store (after (run env (handleDatabaseChange refresh payload) w))
    = store (after (run env refresh (announced payload w))) /\
  backend (after (run env (handleDatabaseChange refresh payload) w))
    = backend (after (run env refresh (announced payload w))) /\
  pending (run env (handleDatabaseChange refresh payload) w)
    = pending (run env refresh (announced payload w)) /\
  console (after (run env (handleDatabaseChange refresh payload) w))
    = console (after (run env refresh (announced payload w)))
      ++ match outcome (run env refresh (announced payload w)) with
         | inr _ => [Line LOG "✅ 数据库变化处理完成 - 界面已更新"]
         | inl _ => []
         end.
Proof.
  split.
  - unfold handleDatabaseChange, announced, sleep, mbind, async_bind.
    destruct (DbMonitoringStore.diff payload); cbn [bind advance run console_log];
      (eexists; split; [reflexivity |]; split; reflexivity).
  - unfold handleDatabaseChange, announced, await, sleep, mbind, async_bind.
    destruct (DbMonitoringStore.diff payload); cbn [bind run console_log];
      rewrite run_bind, run_try_catch, run_bind;
      match goal with |- context [run env refresh ?w1] =>
        destruct (run env refresh w1) as [[[e | []] w2] sp] end;
      cbn; rewrite ?app_nil_r; done.
Qed.

(** The first run of the effect ([isInitialized] false) asks the
    backend to arm the watcher before anything else, sets [isInitialized]
    whether or not that request is accepted, and always resolves with
    nothing pending.  With automatic refresh on, its last request is the
    registration and [isListening] tells whether the backend accepted it;
    with automatic refresh off, [isListening] is false and no registration
    is added. *)
Theorem manageListening_first_run env (w : World HookState) auto :
  outcome (run env (manageListening false auto) w) = inr tt /\
  isInitialized (store (after (run env (manageListening false auto) w))) = true /\
  pending (run env (manageListening false auto) w) = [] /\
  (exists ok, journal (backend (after (run env (manageListening false auto) w)))
                !! length (journal (backend w))
              = Some (invoke start_database_monitoring, ok)) /\
  if auto
  then exists ok, last_request (after (run env (manageListening false auto) w))
                  = Some (listen "database-changed", ok) /\
                  isListening (listener (store (after (run env (manageListening false auto) w))))
                  = ok
  else isListening (listener (store (after (run env (manageListening false auto) w)))) = false /\
       live (after (run env (manageListening false auto) w)) <= live w.
Proof.
  destruct w as [[[isL au [id|]] ini] b con], auto; unfold last_request, live;
    backend_cases env; rewrite ?last_snoc.
  all: repeat split; try done.
  all: try (eexists; rewrite <- ?app_assoc; by apply list_lookup_middle).
  all: try (eexists; split; reflexivity).
  all: try (cbn; try case_decide; simpl; lia).
  all: apply length_filter.
Qed.

(** A later run of the effect ([isInitialized] true) never asks the
    backend to arm the watcher again and leaves [isInitialized] alone; it
    only starts or stops the listener, and always resolves. *)
Theorem manageListening_later_runs env (w : World HookState) auto :
  outcome (run env (manageListening true auto) w) = inr tt /\
  isInitialized (store (after (run env (manageListening true auto) w)))
    = isInitialized (store w) /\
  requests_of (invoke start_database_monitoring) (after (run env (manageListening true auto) w))
    = requests_of (invoke start_database_monitoring) w /\
  watcher_armed (backend (after (run env (manageListening true auto) w)))
    = watcher_armed (backend w).
Proof.
  destruct w as [[[isL au [id|]] ini] b con], auto; unfold requests_of;
    backend_cases env; rewrite ?filter_app; cbn; rewrite ?app_nil_r; done.
Qed.

End HookEvents.
